(** * OAuth2 login flow of the Code Assist client (oauth2.ts)

    A shallow embedding of [packages/core/src/code_assist/oauth2.ts]:
    the credential cache ([loadCachedCredentials], [cacheCredentials],
    [getCachedCredentialPath]), the interactive callback receiver and the
    headless code channel built by [authWithWeb].

    JavaScript strings are sequences of UTF-16 code units ([list N]);
    [indexOf], [trim], [JSON.stringify] and [JSON.parse] are written out.
    Asynchronous functions are written in a state-and-exception monad over
    an explicit program state (file system, client credentials, the login
    promise, the HTTP response, the server, the trace of calls that leave
    the process); a listener runs to its end once started.
    What the module calls outside the language (the OAuth2 client
    library, the URL parser, [crypto], node's [fs], [os] and [path], the
    process environment) is a field of the record [Env], so that every
    statement holds for every behaviour of these. *)

From Stdlib Require Import ZArith NArith List Lia Bool.
From Stdlib Require Import Strings.Ascii.
From Stdlib Require Strings.String.
From Stdlib Require Import DecimalN DecimalFacts.
From stdpp Require Import base gmap list.
Import String.StringSyntax.
Import ListNotations.

Delimit Scope string_scope with string.
Bind Scope string_scope with String.string.

Local Open Scope N_scope.
#[local] Set Warnings "-register-all".

(* ===================================================================== *)
(** ** JavaScript strings *)
(* ===================================================================== *)

Module Js.

(** A string literal of the source, as code units. *)
Definition str (s : String.string) : list N :=
  List.map N_of_ascii (String.list_ascii_of_string s).
Arguments str s%_string_scope : simpl never.

(** [===] on strings. *)
Definition str_eqb (a b : list N) : bool := bool_decide (a = b).

(** Truthiness of a value of type [string]: only the empty string is falsy. *)
Definition truthy (s : list N) : bool :=
  match s with [] => false | _ :: _ => true end.

(** Truthiness of [string | undefined] and [string | null]. *)
Definition truthy_opt (o : option (list N)) : bool :=
  match o with None => false | Some s => truthy s end.

(** String concatenation with a possibly undefined operand:
    ['Unexpected request: ' + req.url]. *)
Definition show_opt (o : option (list N)) : list N :=
  match o with None => str "undefined" | Some s => s end.

Fixpoint startsWith (t s : list N) : bool :=
  match t, s with
  | [], _ => true
  | _ :: _, [] => false
  | c :: t', d :: s' => (c =? d) && startsWith t' s'
  end.

Fixpoint indexOf_from (t s : list N) (i : Z) : Z :=
  if startsWith t s then i
  else match s with
       | [] => (-1)%Z
       | _ :: s' => indexOf_from t s' (i + 1)%Z
       end.

(** [s.indexOf(t)]: position of the first occurrence of [t] in [s],
    [-1] when there is none. *)
Definition indexOf (s t : list N) : Z := indexOf_from t s 0%Z.

(** WhiteSpace and LineTerminator code units of ECMAScript, the ones
    [String.prototype.trim] strips. *)
Definition is_whitespace (c : N) : bool :=
  (c =? 9) || (c =? 10) || (c =? 11) || (c =? 12) || (c =? 13) || (c =? 32)
  || (c =? 160) || (c =? 5760) || ((8192 <=? c) && (c <=? 8202))
  || (c =? 8232) || (c =? 8233) || (c =? 8239) || (c =? 8287)
  || (c =? 12288) || (c =? 65279).

Fixpoint trimStart (s : list N) : list N :=
  match s with
  | c :: s' => if is_whitespace c then trimStart s' else s
  | [] => []
  end.

Definition trimEnd (s : list N) : list N := rev (trimStart (rev s)).

Definition trim (s : list N) : list N := trimEnd (trimStart s).

(** Template literal [`${port}`] for a non-negative integer. *)
Fixpoint digits_of_uint (u : Decimal.uint) : list N :=
  match u with
  | Decimal.Nil => []
  | Decimal.D0 u => 48 :: digits_of_uint u
  | Decimal.D1 u => 49 :: digits_of_uint u
  | Decimal.D2 u => 50 :: digits_of_uint u
  | Decimal.D3 u => 51 :: digits_of_uint u
  | Decimal.D4 u => 52 :: digits_of_uint u
  | Decimal.D5 u => 53 :: digits_of_uint u
  | Decimal.D6 u => 54 :: digits_of_uint u
  | Decimal.D7 u => 55 :: digits_of_uint u
  | Decimal.D8 u => 56 :: digits_of_uint u
  | Decimal.D9 u => 57 :: digits_of_uint u
  end.

Definition show_N (n : N) : list N := digits_of_uint (N.to_uint n).

(** One hexadecimal digit, lower case, as [Buffer.toString('hex')] and
    [JSON.stringify] write it. *)
Definition hex_digit (d : N) : N := if d <? 10 then 48 + d else 87 + d.

End Js.

(* ===================================================================== *)
(** ** JSON values, [JSON.stringify(v, null, 2)] and [JSON.parse] *)
(* ===================================================================== *)

(** What [JSON.parse] can return and what the token endpoint hands to the
    client.  Objects keep their properties in insertion order.  A number
    without fraction and exponent is held by value; any other number
    literal is held as written, since its double value is not part of this
    development.  [JNonFinite] stands for the numbers [NaN], [Infinity]
    and [-Infinity], which a value in memory can hold and no JSON text
    denotes. *)
Inductive json : Type :=
| JNull
| JBool (b : bool)
| JNum (z : Z)
| JNumLit (lit : list N)
| JNonFinite
| JStr (s : list N)
| JArr (vs : list json)
| JObj (kvs : list (list N * json)).

Module JSON.

Import Js.

Definition is_high_surrogate (c : N) : bool := (55296 <=? c) && (c <=? 56319).
Definition is_low_surrogate (c : N) : bool := (56320 <=? c) && (c <=? 57343).

Definition hex4 (c : N) : list N :=
  [hex_digit (c / 4096 mod 16); hex_digit (c / 256 mod 16);
   hex_digit (c / 16 mod 16); hex_digit (c mod 16)].

(** [\uXXXX] *)
Definition unicode_escape (c : N) : list N := 92 :: 117 :: hex4 c.

(** QuoteJSONString, one code unit that is not a surrogate. *)
Definition escape_unit (c : N) : list N :=
  if c =? 8 then [92; 98]
  else if c =? 9 then [92; 116]
  else if c =? 10 then [92; 110]
  else if c =? 12 then [92; 102]
  else if c =? 13 then [92; 114]
  else if c =? 34 then [92; 34]
  else if c =? 92 then [92; 92]
  else if c <? 32 then unicode_escape c
  else [c].

(** QuoteJSONString walks the string by code points: a surrogate pair is
    copied, a lone surrogate is written as an escape. *)
Fixpoint quote_units (s : list N) : list N :=
  match s with
  | [] => []
  | c :: r =>
      if is_high_surrogate c then
        match r with
        | d :: r' =>
            if is_low_surrogate d then c :: d :: quote_units r'
            else unicode_escape c ++ quote_units r
        | [] => unicode_escape c
        end
      else if is_low_surrogate c then unicode_escape c ++ quote_units r
      else escape_unit c ++ quote_units r
  end.

Definition quote (s : list N) : list N := 34 :: quote_units s ++ [34].

Definition show_Z (z : Z) : list N :=
  match z with
  | Z0 => [48]
  | Zpos p => show_N (Npos p)
  | Zneg p => 45 :: show_N (Npos p)
  end.

Fixpoint join (sep : list N) (parts : list (list N)) : list N :=
  match parts with
  | [] => []
  | [p] => p
  | p :: ps => p ++ sep ++ join sep ps
  end.

(** The gap of [JSON.stringify(_, null, 2)]. *)
Definition gap : list N := [32; 32].

(** SerializeJSONProperty with the current indentation. *)
Fixpoint serialize (indent : list N) (v : json) : list N :=
  match v with
  | JNull => str "null"
  | JBool true => str "true"
  | JBool false => str "false"
  | JNum z => show_Z z
  | JNumLit lit => lit
  | JNonFinite => str "null"
  | JStr s => quote s
  | JArr vs =>
      match List.map (serialize (indent ++ gap)) vs with
      | [] => str "[]"
      | parts =>
          [91; 10] ++ (indent ++ gap)
          ++ join ([44; 10] ++ (indent ++ gap)) parts
          ++ [10] ++ indent ++ [93]
      end
  | JObj kvs =>
      match List.map (fun kv : list N * json =>
                        let (k, w) := kv in
                        quote k ++ [58; 32] ++ serialize (indent ++ gap) w) kvs with
      | [] => str "{}"
      | parts =>
          [123; 10] ++ (indent ++ gap)
          ++ join ([44; 10] ++ (indent ++ gap)) parts
          ++ [10] ++ indent ++ [125]
      end
  end.

(** [JSON.stringify(v, null, 2)] *)
Definition stringify (v : json) : list N := serialize [] v.

(** *** Parsing *)

Definition is_ws (c : N) : bool :=
  (c =? 32) || (c =? 9) || (c =? 10) || (c =? 13).

Fixpoint skip_ws (s : list N) : list N :=
  match s with
  | c :: r => if is_ws c then skip_ws r else s
  | [] => []
  end.

Definition is_digit (c : N) : bool := (48 <=? c) && (c <=? 57).

Definition hex_value (c : N) : option N :=
  if is_digit c then Some (c - 48)
  else if (97 <=? c) && (c <=? 102) then Some (c - 87)
  else if (65 <=? c) && (c <=? 70) then Some (c - 55)
  else None.

Definition unescape (e : N) : option N :=
  if e =? 34 then Some 34
  else if e =? 92 then Some 92
  else if e =? 47 then Some 47
  else if e =? 98 then Some 8
  else if e =? 102 then Some 12
  else if e =? 110 then Some 10
  else if e =? 114 then Some 13
  else if e =? 116 then Some 9
  else None.

(** The characters of a string literal after its opening quote, up to
    and including the closing quote. *)
Fixpoint parse_chars (s : list N) : option (list N * list N) :=
  match s with
  | [] => None
  | c :: r =>
      if c =? 34 then Some ([], r)
      else if c =? 92 then
        match r with
        | [] => None
        | e :: r1 =>
            if e =? 117 then
              match r1 with
              | h1 :: h2 :: h3 :: h4 :: r2 =>
                  match hex_value h1, hex_value h2, hex_value h3, hex_value h4 with
                  | Some a, Some b, Some c', Some d =>
                      match parse_chars r2 with
                      | Some (t, rest) =>
                          Some ((a * 4096 + b * 256 + c' * 16 + d) :: t, rest)
                      | None => None
                      end
                  | _, _, _, _ => None
                  end
              | _ => None
              end
            else
              match unescape e with
              | Some u =>
                  match parse_chars r1 with
                  | Some (t, rest) => Some (u :: t, rest)
                  | None => None
                  end
              | None => None
              end
        end
      else if c <? 32 then None
      else
        match parse_chars r with
        | Some (t, rest) => Some (c :: t, rest)
        | None => None
        end
  end.

Fixpoint take_digits (s : list N) : list N * list N :=
  match s with
  | c :: r =>
      if is_digit c then let (ds, rest) := take_digits r in (c :: ds, rest)
      else ([], s)
  | [] => ([], [])
  end.

Fixpoint uint_of_digits (ds : list N) : Decimal.uint :=
  match ds with
  | [] => Decimal.Nil
  | c :: r =>
      let u := uint_of_digits r in
      if c =? 48 then Decimal.D0 u
      else if c =? 49 then Decimal.D1 u
      else if c =? 50 then Decimal.D2 u
      else if c =? 51 then Decimal.D3 u
      else if c =? 52 then Decimal.D4 u
      else if c =? 53 then Decimal.D5 u
      else if c =? 54 then Decimal.D6 u
      else if c =? 55 then Decimal.D7 u
      else if c =? 56 then Decimal.D8 u
      else Decimal.D9 u
  end.

(** Optional fraction [.digits]; [None] when the dot has no digit. *)
Definition parse_frac (s : list N) : option (list N * list N) :=
  match s with
  | c :: r =>
      if c =? 46 then
        let (ds, rest) := take_digits r in
        match ds with [] => None | _ => Some (46 :: ds, rest) end
      else Some ([], s)
  | [] => Some ([], [])
  end.

(** Optional exponent [e], [E] with sign and digits. *)
Definition parse_exp (s : list N) : option (list N * list N) :=
  match s with
  | c :: r =>
      if (c =? 101) || (c =? 69) then
        let (sg, r1) :=
          match r with
          | d :: r' =>
              if (d =? 43) || (d =? 45) then ([d], r') else ([], r)
          | [] => ([], r)
          end in
        let (ds, rest) := take_digits r1 in
        match ds with [] => None | _ => Some (c :: sg ++ ds, rest) end
      else Some ([], s)
  | [] => Some ([], [])
  end.

Definition number_of (neg : bool) (ds : list N) : json :=
  let n := Z.of_N (N.of_uint (uint_of_digits ds)) in
  JNum (if neg then (- n)%Z else n).

Definition parse_after_int (neg : bool) (ds rest : list N)
  : option (json * list N) :=
  match parse_frac rest with
  | None => None
  | Some (fr, rest1) =>
      match parse_exp rest1 with
      | None => None
      | Some (ex, rest2) =>
          match fr, ex with
          | [], [] => Some (number_of neg ds, rest2)
          | _, _ =>
              Some (JNumLit ((if neg then [45] else []) ++ ds ++ fr ++ ex), rest2)
          end
      end
  end.

(** A number literal: the integer part is [0] or starts with a digit
    from 1 to 9. *)
Definition parse_number (s : list N) : option (json * list N) :=
  let (neg, s1) :=
    match s with
    | c :: r => if c =? 45 then (true, r) else (false, s)
    | [] => (false, s)
    end in
  match s1 with
  | c :: r =>
      if c =? 48 then parse_after_int neg [48] r
      else if is_digit c then
        let (ds, rest) := take_digits s1 in parse_after_int neg ds rest
      else None
  | [] => None
  end.

(** Defining a property that the object already has replaces its value
    in place. *)
Fixpoint set_entry (k : list N) (v : json) (kvs : list (list N * json))
  : list (list N * json) :=
  match kvs with
  | [] => [(k, v)]
  | (k', v') :: r =>
      if bool_decide (k = k') then (k, v) :: r else (k', v') :: set_entry k v r
  end.

Definition object_of (entries : list (list N * json)) : json :=
  JObj (fold_left (fun acc kv => set_entry (fst kv) (snd kv) acc) entries []).

Fixpoint parse_value (fuel : nat) (s : list N) : option (json * list N) :=
  match fuel with
  | O => None
  | S f =>
      match skip_ws s with
      | [] => None
      | c :: r =>
          if c =? 123 then
            if startsWith [125] (skip_ws r) then
              Some (JObj [], skipn 1 (skip_ws r))
            else
              match parse_members f r with
              | Some (es, rest) => Some (object_of es, rest)
              | None => None
              end
          else if c =? 91 then
            if startsWith [93] (skip_ws r) then
              Some (JArr [], skipn 1 (skip_ws r))
            else
              match parse_elements f r with
              | Some (vs, rest) => Some (JArr vs, rest)
              | None => None
              end
          else if c =? 34 then
            match parse_chars r with
            | Some (t, rest) => Some (JStr t, rest)
            | None => None
            end
          else if startsWith (str "true") (c :: r) then
            Some (JBool true, skipn 4 (c :: r))
          else if startsWith (str "false") (c :: r) then
            Some (JBool false, skipn 5 (c :: r))
          else if startsWith (str "null") (c :: r) then
            Some (JNull, skipn 4 (c :: r))
          else parse_number (c :: r)
      end
  end
with parse_elements (fuel : nat) (s : list N) : option (list json * list N) :=
  match fuel with
  | O => None
  | S f =>
      match parse_value f s with
      | None => None
      | Some (v, r) =>
          match skip_ws r with
          | c :: r' =>
              if c =? 44 then
                match parse_elements f r' with
                | Some (vs, rest) => Some (v :: vs, rest)
                | None => None
                end
              else if c =? 93 then Some ([v], r')
              else None
          | [] => None
          end
      end
  end
with parse_members (fuel : nat) (s : list N)
  : option (list (list N * json) * list N) :=
  match fuel with
  | O => None
  | S f =>
      if startsWith [34] (skip_ws s) then
        match parse_chars (skipn 1 (skip_ws s)) with
        | None => None
        | Some (k, r1) =>
            if startsWith [58] (skip_ws r1) then
              match parse_value f (skipn 1 (skip_ws r1)) with
              | None => None
              | Some (v, r3) =>
                  match skip_ws r3 with
                  | c :: r4 =>
                      if c =? 44 then
                        match parse_members f r4 with
                        | Some (es, rest) => Some ((k, v) :: es, rest)
                        | None => None
                        end
                      else if c =? 125 then Some ([(k, v)], r4)
                      else None
                  | [] => None
                  end
              end
            else None
        end
      else None
  end.

(** [JSON.parse(text)]; [None] stands for the SyntaxError it throws.
    Every level of nesting takes one character and at most two units of
    fuel, so the fuel never runs out before the text does. *)
Definition parse (text : list N) : option json :=
  match parse_value (S (2 * length text)) text with
  | Some (v, rest) =>
      match skip_ws rest with
      | [] => Some v
      | _ :: _ => None
      end
  | None => None
  end.

(** *** Values that the serialisation keeps

    In-memory values that are faithful in this development: numbers are
    safe integers ([Number.isSafeInteger], so finite), strings are made
    of 16-bit code units, an object has each property once. *)

Definition safe_integer (z : Z) : Prop :=
  (- 9007199254740991 <= z <= 9007199254740991)%Z.

Definition wf_string (s : list N) : Prop := Forall (fun c => c < 65536) s.

Fixpoint wf (v : json) : Prop :=
  match v with
  | JNull | JBool _ => True
  | JNum z => safe_integer z
  | JNumLit _ | JNonFinite => False
  | JStr s => wf_string s
  | JArr vs => fold_right (fun w acc => wf w /\ acc) True vs
  | JObj kvs =>
      NoDup (List.map fst kvs)
      /\ fold_right (fun kv acc =>
                       let (k, w) := kv : list N * json in
                       wf_string k /\ wf w /\ acc) True kvs
  end.

(** Fuel that [parse_value] needs to read a value back. *)
Fixpoint fuel_of (v : json) : nat :=
  match v with
  | JArr vs => S (fold_right (fun w acc => S (fuel_of w + acc)) 0%nat vs)
  | JObj kvs =>
      S (fold_right (fun kv acc =>
                       let (_, w) := kv : list N * json in
                       S (fuel_of w + acc)) 0%nat kvs)
  | _ => 1%nat
  end.

Definition no_digit_head (rest : list N) : Prop :=
  match rest with
  | [] => True
  | c :: _ => is_digit c = false
  end.

(** What may follow a number that was read in full. *)
Definition number_end (rest : list N) : Prop :=
  match rest with
  | [] => True
  | c :: _ => is_digit c = false /\ c <> 46 /\ c <> 101 /\ c <> 69
  end.

(** What follows a value in the output of [serialize]: nothing, a comma
    or a line feed. *)
Definition value_end (rest : list N) : Prop :=
  match rest with
  | [] => True
  | c :: _ => c = 44 \/ c = 10
  end.

Definition blanks (s : list N) : Prop := Forall (fun c => is_ws c = true) s.

(** The first character of a serialised value is never blank and never
    closes an array or an object. *)
Definition opens (c : N) : Prop :=
  is_ws c = false /\ c <> 93 /\ c <> 125 /\ c <> 44.

Definition elems_fuel (vs : list json) : nat :=
  fold_right (fun w acc => S (fuel_of w + acc)) 0%nat vs.

Definition members_fuel (kvs : list (list N * json)) : nat :=
  fold_right (fun kv acc => let (_, w) := kv : list N * json in
                            S (fuel_of w + acc)) 0%nat kvs.

Definition member_text (ind : list N) (kv : list N * json) : list N :=
  let (k, w) := kv in quote k ++ [58; 32] ++ serialize ind w.

Definition sep (ind : list N) : list N := [44; 10] ++ ind.

Definition reads_value (fuel : nat) : Prop :=
  forall v ws ind rest,
    wf v -> (fuel_of v <= fuel)%nat -> blanks ws -> blanks ind -> value_end rest ->
    parse_value fuel (ws ++ serialize ind v ++ rest) = Some (v, rest).

Definition reads_elements (fuel : nat) : Prop :=
  forall vs ws ind outer rest,
    vs <> [] -> Forall wf vs -> (elems_fuel vs <= fuel)%nat ->
    blanks ws -> blanks ind -> blanks outer ->
    parse_elements fuel
      (ws ++ join (sep ind) (List.map (serialize ind) vs)
          ++ 10 :: outer ++ 93 :: rest)
    = Some (vs, rest).

Definition reads_members (fuel : nat) : Prop :=
  forall kvs ws ind outer rest,
    kvs <> [] -> Forall (fun kv => wf_string (fst kv) /\ wf (snd kv)) kvs ->
    (members_fuel kvs <= fuel)%nat ->
    blanks ws -> blanks ind -> blanks outer ->
    parse_members fuel
      (ws ++ join (sep ind) (List.map (member_text ind) kvs)
          ++ 10 :: outer ++ 125 :: rest)
    = Some (kvs, rest).

(** [parse_chars] after one more character. *)
Definition cont (c : N) (o : option (list N * list N))
  : option (list N * list N) :=
  match o with
  | Some (t, rest) => Some (c :: t, rest)
  | None => None
  end.

End JSON.

(* ===================================================================== *)
(** ** Program state, the outside world and the monad of async code *)
(* ===================================================================== *)

(** The result of an awaited call: a value, or a thrown [Error] held by
    its message. *)
Inductive outcome (A : Type) : Type :=
| Ok (a : A)
| Throw (message : list N).
Arguments Ok {A} a.
Arguments Throw {A} message.

(** Calls that leave the process, in the order they are made, with what
    they returned. *)
Inductive Event : Type :=
| EvGetToken (code redirect_uri : list N) (result : outcome json)
| EvGetAccessToken (result : outcome (option (list N)))
| EvGetTokenInfo (token : list N) (result : outcome unit)
| EvReadFile (path : list N) (result : outcome (list N))
| EvMkdir (path : list N) (result : outcome unit)
| EvWriteFile (path content : list N) (result : outcome unit)
| EvRm (path : list N) (result : outcome unit)
| EvRandomBytes (size : nat) (bytes : list N).

(** The single-shot completion signal [loginCompletePromise]. *)
Inductive Settlement : Type :=
| Pending
| Resolved
| Rejected (message : list N).

(** [resolve] and [reject] of a promise settle it once; later calls do
    nothing. *)
Definition settle (s cur : Settlement) : Settlement :=
  match cur with
  | Pending => s
  | _ => cur
  end.

(** The [http.ServerResponse] of the request being handled. *)
Record Response : Type := mkResponse {
  resHead : option (N * list N);   (* status code and Location header *)
  resBody : list N;
  resEnded : bool
}.

Definition fresh_response : Response :=
  {| resHead := None; resBody := []; resEnded := false |}.

(** The [http.Server] made by [authWithWeb], with the variables its
    request listener closes over. *)
Record Server : Type := mkServer {
  srv_state : list N;
  srv_redirectUri : list N;
  srv_port : option N;             (* the port given to [server.listen] *)
  srv_closed : bool
}.

Record State : Type := mkState {
  files : gmap (list N) (list N);  (* regular files: path to content *)
  dirs : gset (list N);            (* directories made by [fs.mkdir] *)
  credentials : json;              (* [client.credentials] *)
  loginComplete : Settlement;
  res : Response;
  server : option Server;
  trace : list Event
}.

(** [GenerateAuthUrlOpts], the fields this module sets. *)
Record GenerateAuthUrlOpts : Type := mkOpts {
  redirect_uri : list N;
  access_type : list N;
  scope : list (list N);
  state : list N
}.

(** Everything the module calls and does not define.  The answers of the
    network and of the file system may depend on the calls made so far. *)
Record Env : Type := mkEnv {
  HEADLESS_LOGIN : option (list N);                 (* process.env *)
  GOOGLE_APPLICATION_CREDENTIALS : option (list N); (* process.env *)
  homedir : list N;                                 (* os.homedir() *)
  path_join : list (list N) -> list N;
  path_dirname : list N -> list N;
  randomBytes : list Event -> nat -> list N;        (* crypto.randomBytes *)
  generateAuthUrl : GenerateAuthUrlOpts -> list N;
  getToken : list Event -> list N -> list N -> outcome json;
  getAccessToken : list Event -> json -> outcome (option (list N));
  (* [client.credentials] after [client.getAccessToken()]: the library
     refreshes a missing or expiring access token and stores the new
     credentials on the client; the credentials it was called with when
     it does not refresh *)
  refreshedCredentials : list Event -> json -> json;
  getTokenInfo : list Event -> list N -> outcome unit;
  (* [new url.URL(input, base).searchParams]; [None] when the
     constructor throws *)
  searchParams : list N -> list N -> option (list (list N * list N));
  readFile_error : list Event -> list N -> option (list N);
  mkdir_error : list Event -> list N -> option (list N);
  writeFile_error : list Event -> list N -> list N -> option (list N);
  rm_error : list Event -> list N -> option (list N)
}.

(** State and exceptions. *)
Definition M (A : Type) : Type := State -> outcome A * State.

#[export] Instance M_ret : MRet M := fun A a st => (Ok a, st).

#[export] Instance M_bind : MBind M := fun A B f c st =>
  match c st with
  | (Ok a, st') => f a st'
  | (Throw e, st') => (Throw e, st')
  end.

Definition throw {A : Type} (message : list N) : M A :=
  fun st => (Throw message, st).

(** [try { body } catch (e) { handler }] *)
Definition try_catch {A : Type} (body : M A) (handler : list N -> M A) : M A :=
  fun st =>
    match body st with
    | (Ok a, st') => (Ok a, st')
    | (Throw e, st') => handler e st'
    end.

(** [try { body } finally { fin }] *)
Definition try_finally {A : Type} (body : M A) (fin : M unit) : M A :=
  fun st =>
    match body st with
    | (r, st') =>
        match fin st' with
        | (Ok _, st'') => (r, st'')
        | (Throw e, st'') => (Throw e, st'')
        end
    end.

Definition modify (f : State -> State) : M unit := fun st => (Ok tt, f st).

Definition log (ev : Event) (st : State) : State :=
  mkState (files st) (dirs st) (credentials st) (loginComplete st) (res st)
    (server st) (trace st ++ [ev]).

(** *** crypto *)

Definition crypto_randomBytes (env : Env) (size : nat) : M (list N) :=
  fun st =>
    let bytes := randomBytes env (trace st) size in
    (Ok bytes, log (EvRandomBytes size bytes) st).

(** *** The promise *)

Definition set_loginComplete (s : Settlement) (st : State) : State :=
  mkState (files st) (dirs st) (credentials st) s (res st) (server st) (trace st).

Definition new_promise : M unit := modify (set_loginComplete Pending).

Definition resolve : M unit :=
  modify (fun st => set_loginComplete (settle Resolved (loginComplete st)) st).

Definition reject (message : list N) : M unit :=
  modify (fun st =>
    set_loginComplete (settle (Rejected message) (loginComplete st)) st).

(** *** The OAuth2 client *)

Definition setCredentials (tokens : json) : M unit :=
  modify (fun st =>
    mkState (files st) (dirs st) tokens (loginComplete st) (res st) (server st)
      (trace st)).

Definition client_credentials : M json := fun st => (Ok (credentials st), st).

Definition client_getToken (env : Env) (code redirectUri : list N) : M json :=
  fun st =>
    let r := getToken env (trace st) code redirectUri in
    (r, log (EvGetToken code redirectUri r) st).

Definition client_getAccessToken (env : Env) : M (option (list N)) :=
  fun st =>
    let r := getAccessToken env (trace st) (credentials st) in
    let held := refreshedCredentials env (trace st) (credentials st) in
    (r,
     log (EvGetAccessToken r)
       (mkState (files st) (dirs st) held (loginComplete st) (res st)
          (server st) (trace st))).

Definition client_getTokenInfo (env : Env) (token : list N) : M unit :=
  fun st =>
    let r := getTokenInfo env (trace st) token in
    (r, log (EvGetTokenInfo token r) st).

(** *** node:fs *)

Definition ENOENT (path : list N) : list N :=
  Js.str "ENOENT: no such file or directory '" ++ path ++ Js.str "'".

Definition fs_readFile (env : Env) (path : list N) : M (list N) :=
  fun st =>
    let r :=
      match readFile_error env (trace st) path with
      | Some e => Throw e
      | None =>
          match files st !! path with
          | Some content => Ok content
          | None => Throw (ENOENT path)
          end
      end in
    (r, log (EvReadFile path r) st).

(** [fs.mkdir(path, { recursive: true })]: an existing directory is not
    an error. *)
Definition fs_mkdir (env : Env) (path : list N) : M unit :=
  fun st =>
    match mkdir_error env (trace st) path with
    | Some e => (Throw e, log (EvMkdir path (Throw e)) st)
    | None =>
        (Ok tt,
         log (EvMkdir path (Ok tt))
           (mkState (files st) ({[ path ]} ∪ dirs st) (credentials st)
              (loginComplete st) (res st) (server st) (trace st)))
    end.

(** [fs.writeFile(path, data)] replaces the whole content. *)
Definition fs_writeFile (env : Env) (path content : list N) : M unit :=
  fun st =>
    match writeFile_error env (trace st) path content with
    | Some e => (Throw e, log (EvWriteFile path content (Throw e)) st)
    | None =>
        (Ok tt,
         log (EvWriteFile path content (Ok tt))
           (mkState (<[ path := content ]> (files st)) (dirs st) (credentials st)
              (loginComplete st) (res st) (server st) (trace st)))
    end.

(** [fs.rm(path)]: a missing file is an error. *)
Definition fs_rm (env : Env) (path : list N) : M unit :=
  fun st =>
    match rm_error env (trace st) path with
    | Some e => (Throw e, log (EvRm path (Throw e)) st)
    | None =>
        match files st !! path with
        | Some _ =>
            (Ok tt,
             log (EvRm path (Ok tt))
               (mkState (delete path (files st)) (dirs st) (credentials st)
                  (loginComplete st) (res st) (server st) (trace st)))
        | None => (Throw (ENOENT path), log (EvRm path (Throw (ENOENT path))) st)
        end
    end.

(** *** The HTTP response and server *)

Definition set_res (r : Response) (st : State) : State :=
  mkState (files st) (dirs st) (credentials st) (loginComplete st) r (server st)
    (trace st).

Definition ERR_HTTP_HEADERS_SENT : list N :=
  Js.str "Cannot write headers after they are sent to the client".

(** [res.writeHead(status, { Location: location })] *)
Definition res_writeHead (status : N) (location : list N) : M unit :=
  fun st =>
    match resHead (res st) with
    | Some _ => (Throw ERR_HTTP_HEADERS_SENT, st)
    | None =>
        (Ok tt,
         set_res (mkResponse (Some (status, location)) (resBody (res st))
                    (resEnded (res st))) st)
    end.

(** [res.end(data)] *)
Definition res_end (data : list N) : M unit :=
  modify (fun st =>
    if resEnded (res st) then st
    else set_res (mkResponse (resHead (res st)) (resBody (res st) ++ data) true) st).

Definition res_headersSent : M bool :=
  fun st => (Ok (bool_decide (is_Some (resHead (res st)))), st).

Definition set_server (s : option Server) (st : State) : State :=
  mkState (files st) (dirs st) (credentials st) (loginComplete st) (res st) s
    (trace st).

Definition server_close : M unit :=
  modify (fun st =>
    match server st with
    | Some s =>
        set_server
          (Some (mkServer (srv_state s) (srv_redirectUri s) (srv_port s) true)) st
    | None => st
    end).

(* ===================================================================== *)
(** ** oauth2.ts *)
(* ===================================================================== *)

Module OAuth2.

Import Js.

(** OAuth Scopes for Cloud Code authorization. *)
Definition OAUTH_SCOPE : list (list N) :=
  [ str "https://www.googleapis.com/auth/cloud-platform";
    str "https://www.googleapis.com/auth/userinfo.email";
    str "https://www.googleapis.com/auth/userinfo.profile" ].

Definition HTTP_REDIRECT : N := 301.
Definition SIGN_IN_SUCCESS_URL : list N :=
  str "https://developers.google.com/gemini-code-assist/auth_success_gemini".
Definition SIGN_IN_FAILURE_URL : list N :=
  str "https://developers.google.com/gemini-code-assist/auth_failure_gemini".

Definition GEMINI_DIR : list N := str ".gemini".
Definition CREDENTIAL_FILENAME : list N := str "oauth_creds.json".

Definition CALLBACK_PATH : list N := str "/oauth2callback".
Definition OOB_REDIRECT_URI : list N := str "urn:ietf:wg:oauth:2.0:oob".

Definition MSG_STATE_MISMATCH : list N :=
  str "State mismatch. Possible CSRF attack.".
Definition MSG_NO_CODE_PROVIDED : list N :=
  str "No authorization code provided.".
Definition MSG_NO_CODE_FOUND : list N := str "No code found in request".
Definition MSG_INVALID_URL : list N := str "Invalid URL".
Definition MSG_SYNTAX_ERROR : list N := str "Unexpected token in JSON".

(** [URLSearchParams.get]: the first value of the name, [null] (here
    [None]) when there is none. *)
Fixpoint qs_get (qs : list (list N * list N)) (name : list N)
  : option (list N) :=
  match qs with
  | [] => None
  | (k, v) :: r => if str_eqb k name then Some v else qs_get r name
  end.

(** [function getCachedCredentialPath()] *)
Definition getCachedCredentialPath (env : Env) : list N :=
  path_join env [homedir env; GEMINI_DIR; CREDENTIAL_FILENAME].

(** [async function cacheCredentials(credentials)] *)
Definition cacheCredentials (env : Env) (creds : json) : M unit :=
  let filePath := getCachedCredentialPath env in
  fs_mkdir env (path_dirname env filePath);;
  let credString := JSON.stringify creds in
  fs_writeFile env filePath credString.

(** [process.env.GOOGLE_APPLICATION_CREDENTIALS || getCachedCredentialPath()] *)
Definition keyFile (env : Env) : list N :=
  match GOOGLE_APPLICATION_CREDENTIALS env with
  | Some p => if truthy p then p else getCachedCredentialPath env
  | None => getCachedCredentialPath env
  end.

Definition JSON_parse (text : list N) : M json :=
  match JSON.parse text with
  | Some v => mret v
  | None => throw MSG_SYNTAX_ERROR
  end.

(** [async function loadCachedCredentials(client)] *)
Definition loadCachedCredentials (env : Env) : M bool :=
  try_catch
    (creds ← fs_readFile env (keyFile env);
     parsed ← JSON_parse creds;
     setCredentials parsed;;
     (* This will verify locally that the credentials look good. *)
     token ← client_getAccessToken env;
     match token with
     | None => mret false
     | Some tok =>
         if negb (truthy tok) then mret false
         else
           (* This will check with the server to see if it hasn't been
              revoked. *)
           client_getTokenInfo env tok;;
           mret true
     end)
    (fun _ => mret false).

(** The first test of the request listener:
    [!req.url || req.url.indexOf('/oauth2callback') === -1]. *)
Definition unexpected_request (url : option (list N)) : bool :=
  match url with
  | None => true
  | Some u => negb (truthy u) || (indexOf u CALLBACK_PATH =? -1)%Z
  end.

Definition base_url (port : N) : list N := str "http://localhost:" ++ show_N port.

(** The listener given to [http.createServer] in the interactive branch of
    [authWithWeb]; [state], [redirectUri] and [port] are the variables it
    closes over, [url] is [req.url]. *)
Definition requestListener (env : Env) (state redirectUri : list N)
    (port : N) (url : option (list N)) : M unit :=
  try_finally
    (try_catch
       (if unexpected_request url then
          res_writeHead HTTP_REDIRECT SIGN_IN_FAILURE_URL;;
          res_end [];;
          reject (str "Unexpected request: " ++ show_opt url)
        else
          match searchParams env (show_opt url) (base_url port) with
          | None => throw MSG_INVALID_URL
          | Some qs =>
              if truthy_opt (qs_get qs (str "error")) then
                res_writeHead HTTP_REDIRECT SIGN_IN_FAILURE_URL;;
                res_end [];;
                reject (str "Error during authentication: "
                        ++ show_opt (qs_get qs (str "error")))
              else if negb (bool_decide (qs_get qs (str "state") = Some state)) then
                res_writeHead HTTP_REDIRECT SIGN_IN_FAILURE_URL;;
                res_end MSG_STATE_MISMATCH;;
                reject MSG_STATE_MISMATCH
              else if truthy_opt (qs_get qs (str "code")) then
                tokens ← client_getToken env
                           (default [] (qs_get qs (str "code"))) redirectUri;
                setCredentials tokens;;
                creds ← client_credentials;
                cacheCredentials env creds;;
                res_writeHead HTTP_REDIRECT SIGN_IN_SUCCESS_URL;;
                res_end [];;
                resolve
              else
                res_writeHead HTTP_REDIRECT SIGN_IN_FAILURE_URL;;
                res_end [];;
                reject MSG_NO_CODE_FOUND
          end)
       (fun e =>
          (* Ensure response is sent before rejecting if possible *)
          sent ← res_headersSent;
          (if negb sent then
             res_writeHead HTTP_REDIRECT SIGN_IN_FAILURE_URL;;
             res_end []
           else mret tt);;
          reject e))
    server_close.

(** [server.on('error', ...)]: the listener could not be bound. *)
Definition serverErrorListener (message : list N) : M unit :=
  reject (str "HTTP server error: " ++ message);;
  server_close.

(** [exchangeCodeFunction] of the headless branch; [redirectUri] is the
    variable it closes over. *)
Definition exchangeCodeFunction (env : Env) (redirectUri : list N)
    (code : list N) : M unit :=
  if negb (truthy code) || str_eqb (trim code) [] then
    reject MSG_NO_CODE_PROVIDED;;
    throw MSG_NO_CODE_PROVIDED
  else
    try_catch
      (tokens ← client_getToken env (trim code) redirectUri;
       setCredentials tokens;;
       creds ← client_credentials;
       cacheCredentials env creds;;
       resolve)
      (fun e =>
         let err := str "Error exchanging authorization code: " ++ e in
         reject err;;
         throw err).

Record HeadlessAuthStep : Type := mkHeadlessAuthStep {
  step_type : list N;
  step_authUrl : list N;
  step_exchangeCodeFunction : list N -> M unit
}.

(** [loginCompletePromise] is the field [loginComplete] of the state. *)
Record OauthWebLogin : Type := mkOauthWebLogin {
  authUrl : list N;
  headlessStep : option HeadlessAuthStep
}.

(** [Buffer.toString('hex')] *)
Definition toHex (bytes : list N) : list N :=
  flat_map (fun b => [hex_digit (b / 16 mod 16); hex_digit (b mod 16)]) bytes.

Definition headless (env : Env) : bool :=
  bool_decide (HEADLESS_LOGIN env = Some (str "true")).

(** The options [authWithWeb] gives to [client.generateAuthUrl]. *)
Definition authUrlOpts (redirectUri state : list N) : GenerateAuthUrlOpts :=
  {| redirect_uri := redirectUri;
     access_type := str "offline";
     scope := OAUTH_SCOPE;
     state := state |}.

Definition PORT : N := 8081.

(** [async function authWithWeb(client)] *)
Definition authWithWeb (env : Env) : M OauthWebLogin :=
  bytes ← crypto_randomBytes env 32;
  let state := toHex bytes in
  if headless env then
    let redirectUri := OOB_REDIRECT_URI in
    let authUrlString := generateAuthUrl env (authUrlOpts redirectUri state) in
    new_promise;;
    mret {| authUrl := authUrlString;
            headlessStep :=
              Some {| step_type := str "NEEDS_CODE";
                      step_authUrl := authUrlString;
                      step_exchangeCodeFunction :=
                        exchangeCodeFunction env redirectUri |} |}
  else
    let port := PORT in
    let redirectUri := str "http://localhost:" ++ show_N port ++ CALLBACK_PATH in
    let authUrl := generateAuthUrl env (authUrlOpts redirectUri state) in
    new_promise;;
    (* http.createServer(listener); server.listen(port) *)
    modify (set_server (Some (mkServer state redirectUri (Some port) false)));;
    mret {| authUrl := authUrl; headlessStep := None |}.

(** [export async function clearCachedCredentialFile()] *)
Definition clearCachedCredentialFile (env : Env) : M unit :=
  try_catch (fs_rm env (getCachedCredentialPath env)) (fun _ => mret tt).

(** An inbound request on the server that [authWithWeb] started: the
    listener runs with the variables it closed over, on a new response. *)
Definition handle_request (env : Env) (url : option (list N)) : M unit :=
  fun st =>
    match server st with
    | Some s =>
        match srv_port s with
        | Some port =>
            if srv_closed s then (Ok tt, st)
            else
              requestListener env (srv_state s) (srv_redirectUri s) port url
                (set_res fresh_response st)
        | None => (Ok tt, st)
        end
    | None => (Ok tt, st)
    end.

End OAuth2.

(* ===================================================================== *)
(** ** The earlier headless branch *)
(* ===================================================================== *)

(** The source file holds two versions of the module.  Everything above
    follows the later one, which [codeAssist.ts] calls.  In the earlier
    one the headless branch of [authWithWeb] reads the code from the
    terminal; this is the callback it gives to [rl.question]. *)
Module Legacy.

Import Js OAuth2.

Definition questionCallback (env : Env) (redirectUri : list N)
    (code : list N) : M unit :=
  (* rl.close() *)
  if negb (truthy code) then
    reject MSG_NO_CODE_PROVIDED
  else
    try_catch
      (tokens ← client_getToken env (trim code) redirectUri;
       setCredentials tokens;;
       creds ← client_credentials;
       cacheCredentials env creds;;
       resolve)
      (fun e => reject (str "Error exchanging authorization code: " ++ e)).

End Legacy.

(* ===================================================================== *)
(** ** The controller: [getOauthClient] *)
(* ===================================================================== *)

Module Controller.

Import Js OAuth2.

(** What [getOauthClient] touches besides the client: the slot
    [config.currentHeadlessAuthStep], the browser ([open]) and the
    console. *)
Record Shell : Type := mkShell {
  currentHeadlessAuthStep : option HeadlessAuthStep;
  opened : list (list N);          (* URLs given to [open] *)
  console : list (list N)          (* texts given to [console.log] *)
}.

(** [getOauthClient] awaits [loginCompletePromise] last.  Its run up to
    that point either has returned the client already or is suspended on
    the promise. *)
Inductive Progress : Type :=
| Returned
| AwaitingLogin.

Definition set_step (s : option HeadlessAuthStep) (sh : Shell) : Shell :=
  mkShell s (opened sh) (console sh).

Definition console_log (text : list N) (sh : Shell) : Shell :=
  mkShell (currentHeadlessAuthStep sh) (opened sh) (console sh ++ [text]).

Definition browser_open (url : list N) (sh : Shell) : Shell :=
  mkShell (currentHeadlessAuthStep sh) (opened sh ++ [url]) (console sh).

Definition MSG_LOGIN_REQUIRED (authUrl : list N) : list N :=
  [10; 10] ++ str "Code Assist login required." ++ [10]
  ++ str "Attempting to open authentication page in your browser." ++ [10]
  ++ str "If the browser does not open, please navigate to:" ++ [10; 10]
  ++ authUrl ++ [10; 10].

Definition MSG_WAITING : list N := str "Waiting for authentication...".

Definition MSG_INITIATED : list N :=
  str "Authentication process initiated. Follow CLI prompts if in headless mode.".

(** [export async function getOauthClient(config)], up to its last
    [await].  [open_error] is what the call of [open] answers: [None]
    when the browser was started.  The client is new: its credentials
    are the empty object. *)
Definition getOauthClient (env : Env) (open_error : list N -> option (list N))
    (sh : Shell) (st : State) : outcome Progress * Shell * State :=
  let st := (setCredentials (JObj []) st).2 in
  (* Ensure headless step is cleared if not taking the authWithWeb path *)
  let sh := set_step None sh in
  match loadCachedCredentials env st with
  | (Throw e, st) => (Throw e, sh, st)
  | (Ok true, st) =>
      (* Found valid cached credentials. *)
      (Ok Returned, sh, st)
  | (Ok false, st) =>
      match authWithWeb env st with
      | (Throw e, st) => (Throw e, sh, st)
      | (Ok webLogin, st) =>
          let sh := set_step (headlessStep webLogin) sh in
          match headlessStep webLogin with
          | None =>
              let sh := console_log (MSG_LOGIN_REQUIRED (authUrl webLogin)) sh in
              let sh := browser_open (authUrl webLogin) sh in
              match open_error (authUrl webLogin) with
              | Some e => (Throw e, sh, st)
              | None => (Ok AwaitingLogin, console_log MSG_WAITING sh, st)
              end
          | Some _ => (Ok AwaitingLogin, console_log MSG_INITIATED sh, st)
          end
      end
  end.

(** [await webLogin.loginCompletePromise; return client]: nothing while
    the promise is pending, the client once it is resolved, the error it
    was rejected with otherwise. *)
Definition awaitLoginComplete (st : State) : option (outcome unit) :=
  match loginComplete st with
  | Pending => None
  | Resolved => Some (Ok tt)
  | Rejected e => Some (Throw e)
  end.

End Controller.

(* ===================================================================== *)
(** ** The headless prompt and the auth command of the CLI *)
(* ===================================================================== *)

Module Ui.

Import Js OAuth2.

Inductive ConsoleLine : Type :=
| ConsoleLog (text : list N)
| ConsoleError (text : list N).

(** The state that [useAuthCommand] keeps, with what it gives to
    [setAuthError], to [settings.setValue] and to the console.  A handler
    is the state after its updates are applied. *)
Record AuthCommand : Type := mkAuthCommand {
  isAuthDialogOpen : bool;
  headlessAuthUrl : option (list N);
  initiateHeadlessCodeEntry : option (list N -> M unit);
  isAuthenticating : bool;
  authError : option (list N);
  settingsWrites : list (list N * list N * list N);  (* scope, key, value *)
  console : list ConsoleLine
}.

Definition setIsAuthDialogOpen (b : bool) (h : AuthCommand) : AuthCommand :=
  mkAuthCommand b (headlessAuthUrl h) (initiateHeadlessCodeEntry h)
    (isAuthenticating h) (authError h) (settingsWrites h) (console h).

Definition setHeadlessAuthUrl (u : option (list N)) (h : AuthCommand)
  : AuthCommand :=
  mkAuthCommand (isAuthDialogOpen h) u (initiateHeadlessCodeEntry h)
    (isAuthenticating h) (authError h) (settingsWrites h) (console h).

Definition setInitiateHeadlessCodeEntry (f : option (list N -> M unit))
    (h : AuthCommand) : AuthCommand :=
  mkAuthCommand (isAuthDialogOpen h) (headlessAuthUrl h) f
    (isAuthenticating h) (authError h) (settingsWrites h) (console h).

Definition setIsAuthenticating (b : bool) (h : AuthCommand) : AuthCommand :=
  mkAuthCommand (isAuthDialogOpen h) (headlessAuthUrl h)
    (initiateHeadlessCodeEntry h) b (authError h) (settingsWrites h) (console h).

Definition setAuthError (e : option (list N)) (h : AuthCommand) : AuthCommand :=
  mkAuthCommand (isAuthDialogOpen h) (headlessAuthUrl h)
    (initiateHeadlessCodeEntry h) (isAuthenticating h) e (settingsWrites h)
    (console h).

Definition settings_setValue (scope key value : list N) (h : AuthCommand)
  : AuthCommand :=
  mkAuthCommand (isAuthDialogOpen h) (headlessAuthUrl h)
    (initiateHeadlessCodeEntry h) (isAuthenticating h) (authError h)
    (settingsWrites h ++ [(scope, key, value)]) (console h).

Definition console_write (line : ConsoleLine) (h : AuthCommand) : AuthCommand :=
  mkAuthCommand (isAuthDialogOpen h) (headlessAuthUrl h)
    (initiateHeadlessCodeEntry h) (isAuthenticating h) (authError h)
    (settingsWrites h) (console h ++ [line]).

(** [openAuthDialog] *)
Definition openAuthDialog (h : AuthCommand) : AuthCommand :=
  let h := setIsAuthDialogOpen true h in
  (* Clear any pending headless state when opening the main auth dialog *)
  let h := setHeadlessAuthUrl None h in
  setInitiateHeadlessCodeEntry None h.

Definition MSG_NO_SUBMISSION : list N :=
  str "Headless code submission error: No submission function available.".

(** [submitHeadlessCode]; [getErrorMessage] is imported from the core
    package. *)
Definition submitHeadlessCode (getErrorMessage : list N -> list N)
    (code : list N) (h : AuthCommand) (st : State) : AuthCommand * State :=
  match initiateHeadlessCodeEntry h with
  | None =>
      let errMsg := MSG_NO_SUBMISSION in
      let h := setAuthError (Some errMsg) h in
      (* Clear headless state and force user back to AuthDialog to restart. *)
      let h := setHeadlessAuthUrl None h in
      let h := setInitiateHeadlessCodeEntry None h in
      let h := openAuthDialog h in
      (console_write (ConsoleError errMsg) h, st)
  | Some exchangeFunction =>
      let h := setIsAuthenticating true h in
      let (hs, st') :=
        match exchangeFunction code st with
        | (Ok _, st') =>
            let h := setAuthError None h in
            let h := console_write (ConsoleLog (str "Headless login successful.")) h in
            (* Successful authentication, clear headless state *)
            let h := setHeadlessAuthUrl None h in
            let h := setInitiateHeadlessCodeEntry None h in
            (setIsAuthDialogOpen false h, st')
        | (Throw e, st') =>
            let errorMsg :=
              str "Headless login failed: " ++ getErrorMessage e
              ++ str ". Please check the code and try again." in
            let h := setAuthError (Some errorMsg) h in
            (* Keep headlessAuthUrl and initiateHeadlessCodeEntry so the user
               can retry on the same prompt. *)
            (console_write (ConsoleError errorMsg) h, st')
        end in
      (setIsAuthenticating false hs, st')
  end.

(** [handleAuthSelect]; [authMethod] is [string | undefined]. *)
Definition handleAuthSelect (env : Env) (authMethod : option (list N))
    (scope : list N) (h : AuthCommand) (st : State) : AuthCommand * State :=
  let (h, st) :=
    if truthy_opt authMethod then
      (* Clear creds for any new auth method selection *)
      let st := (clearCachedCredentialFile env st).2 in
      let h := settings_setValue scope (str "selectedAuthType")
                 (default [] authMethod) h in
      let h := setHeadlessAuthUrl None h in
      (setInitiateHeadlessCodeEntry None h, st)
    else (h, st) in
  let h := setIsAuthDialogOpen false h in
  (setAuthError None h, st).

(** [cancelAuthentication] *)
Definition cancelAuthentication (h : AuthCommand) : AuthCommand :=
  let was_open := isAuthDialogOpen h in
  let h := setIsAuthenticating false h in
  let h := setHeadlessAuthUrl None h in
  let h := setInitiateHeadlessCodeEntry None h in
  (* If cancelling from headless prompt, re-open AuthDialog. *)
  if negb was_open then openAuthDialog h else h.

(** [handleSubmit] of [HeadlessAuthPrompt]; [inputValue] is the text
    typed so far, [onSubmitCode] and [isAuthenticating] are its props. *)
Definition handleSubmit {T : Type} (inputValue : list N) (isAuthenticating : bool)
    (onSubmitCode : list N -> T -> outcome unit * T) (s : T) : outcome unit * T :=
  if negb (str_eqb (trim inputValue) []) && negb isAuthenticating then
    onSubmitCode (trim inputValue) s
  else (Ok tt, s).

End Ui.

(* ===================================================================== *)
(** ** A concrete world, to run the module on *)
(* ===================================================================== *)

Module Sample.

Import Js OAuth2.

Fixpoint split_at (sep : N) (s : list N) : list N * option (list N) :=
  match s with
  | [] => ([], None)
  | c :: r =>
      if c =? sep then ([], Some r)
      else let (a, b) := split_at sep r in (c :: a, b)
  end.

Fixpoint split_on (sep : N) (s : list N) (cur : list N) : list (list N) :=
  match s with
  | [] => [rev cur]
  | c :: r =>
      if c =? sep then rev cur :: split_on sep r []
      else split_on sep r (c :: cur)
  end.

(** The query of a request target: what lies between the first [?] and
    the fragment. *)
Definition query_of (url : list N) : list N :=
  match snd (split_at 63 (fst (split_at 35 url))) with
  | Some q => q
  | None => []
  end.

(** [searchParams] of a request target that has an absolute path and no
    percent-escapes nor [+]: the query split at [&], each piece at its
    first [=]. *)
Definition search_params (url base : list N) : option (list (list N * list N)) :=
  match url with
  | 47 :: _ =>
      Some (List.map (fun piece =>
                        let (k, v) := split_at 61 piece in (k, default [] v))
              (List.filter (fun piece => truthy piece)
                 (split_on 38 (query_of url) [])))
  | _ => None
  end.

(** [path.join] and [path.dirname] on segments that need no
    normalisation. *)
Definition posix_join (parts : list (list N)) : list N := JSON.join [47] parts.

Definition posix_dirname (p : list N) : list N :=
  match rev (split_on 47 p []) with
  | _ :: d => JSON.join [47] (rev d)
  | [] => []
  end.

Definition tokens_of (access : String.string) : json :=
  JObj [ (str "access_token", JStr (str access));
         (str "refresh_token", JStr (str "1//refresh"));
         (str "scope", JStr (str "openid"));
         (str "token_type", JStr (str "Bearer"));
         (str "expiry_date", JNum 1750000000000) ].

(** A token endpoint that knows two authorization codes. *)
Definition token_endpoint (_ : list Event) (code redirectUri : list N) : outcome json :=
  if str_eqb code (str "ABC") then Ok (tokens_of "ya29.first")
  else if str_eqb code (str "DEF") then Ok (tokens_of "ya29.second")
  else Throw (str "invalid_grant").

Fixpoint field (kvs : list (list N * json)) (name : list N) : option json :=
  match kvs with
  | [] => None
  | (k, v) :: r => if str_eqb k name then Some v else field r name
  end.

(** The local check: the access token of the credentials, when there is
    one. *)
Definition local_access_token (_ : list Event) (creds : json)
  : outcome (option (list N)) :=
  match creds with
  | JObj kvs =>
      match field kvs (str "access_token") with
      | Some (JStr t) => Ok (Some t)
      | _ => Throw (str "No refresh token is set.")
      end
  | _ => Throw (str "No refresh token is set.")
  end.

Definition auth_url (o : GenerateAuthUrlOpts) : list N :=
  str "https://accounts.google.com/o/oauth2/v2/auth?redirect_uri=" ++ redirect_uri o
  ++ str "&access_type=" ++ access_type o
  ++ str "&scope=" ++ JSON.join [32] (scope o)
  ++ str "&state=" ++ state o.

Definition env (headless_login override : option (list N)) : Env :=
  {| HEADLESS_LOGIN := headless_login;
     GOOGLE_APPLICATION_CREDENTIALS := override;
     homedir := str "/home/user";
     path_join := posix_join;
     path_dirname := posix_dirname;
     randomBytes := fun tr n => repeat ((171 + N.of_nat (length tr)) mod 256) n;
     generateAuthUrl := auth_url;
     getToken := token_endpoint;
     getAccessToken := local_access_token;
     refreshedCredentials := fun _ creds => creds;
     getTokenInfo := fun _ _ => Ok tt;
     searchParams := search_params;
     readFile_error := fun _ _ => None;
     mkdir_error := fun _ _ => None;
     writeFile_error := fun _ _ _ => None;
     rm_error := fun _ _ => None |}.

Definition interactive : Env := env None None.
Definition headless : Env := env (Some (str "true")) None.

(** A process that has just started: no file, no server. *)
Definition init : State :=
  {| files := ∅; dirs := ∅; credentials := JObj [];
     loginComplete := Pending; res := fresh_response;
     server := None; trace := [] |}.

(** The nonce [authWithWeb] draws in this world. *)
Definition nonce : list N := toHex (repeat 171 32%nat).

(** The state of an interactive attempt right after [authWithWeb]. *)
Definition attempt : State := (authWithWeb interactive init).2.

Definition LOOPBACK : list N := str "http://localhost:8081/oauth2callback".

Definition CACHE_FILE : list N := str "/home/user/.gemini/oauth_creds.json".

(** The exchange function that a headless attempt hands out. *)
Definition headless_exchange (code : list N) : M unit :=
  match authWithWeb headless init with
  | (Ok login, _) =>
      match headlessStep login with
      | Some step => step_exchangeCodeFunction step code
      | None => mret tt
      end
  | (Throw e, _) => throw e
  end.

(** A headless attempt whose first code has been exchanged. *)
Definition signed_in : State :=
  (headless_exchange (str "ABC") (authWithWeb headless init).2).2.

(** A process that finds a truncated cache file. *)
Definition truncated_cache : State :=
  {| files := {[ CACHE_FILE := str "{ 'access_token': 'ya29" ]};
     dirs := {[ str "/home/user/.gemini" ]};
     credentials := JObj [];
     loginComplete := Pending; res := fresh_response;
     server := None; trace := [] |}.

(** A world whose environment names a service-account key file. *)
Definition KEY_FILE : list N := str "/etc/keys/service.json".

Definition overridden : Env := env None (Some KEY_FILE).

(** A world whose home directory cannot be written. *)
Definition read_only_home : Env :=
  {| HEADLESS_LOGIN := None;
     GOOGLE_APPLICATION_CREDENTIALS := None;
     homedir := str "/home/user";
     path_join := posix_join;
     path_dirname := posix_dirname;
     randomBytes := fun tr n => repeat ((171 + N.of_nat (length tr)) mod 256) n;
     generateAuthUrl := auth_url;
     getToken := token_endpoint;
     getAccessToken := local_access_token;
     refreshedCredentials := fun _ creds => creds;
     getTokenInfo := fun _ _ => Ok tt;
     searchParams := search_params;
     readFile_error := fun _ _ => None;
     mkdir_error := fun _ _ => None;
     writeFile_error := fun _ _ _ => Some (str "EACCES: permission denied");
     rm_error := fun _ _ => None |}.

(** Credentials whose expiry date is not a finite number. *)
Definition nonfinite_expiry : json :=
  JObj [ (str "access_token", JStr (str "ya29.first"));
         (str "refresh_token", JStr (str "1//refresh"));
         (str "expiry_date", JNonFinite) ].

(** The property [name] of an object. *)
Definition field_of (v : json) (name : list N) : option json :=
  match v with
  | JObj kvs => field kvs name
  | _ => None
  end.

(** A client library at a time when every cached access token is
    expiring: with a refresh token it gets a new access token from the
    provider and stores it. *)
Definition refresh (creds : json) : json :=
  match field_of creds (str "refresh_token") with
  | Some (JStr _) => tokens_of "ya29.refreshed"
  | _ => creds
  end.

Definition expiring : Env :=
  {| HEADLESS_LOGIN := None;
     GOOGLE_APPLICATION_CREDENTIALS := None;
     homedir := str "/home/user";
     path_join := posix_join;
     path_dirname := posix_dirname;
     randomBytes := fun tr n => repeat ((171 + N.of_nat (length tr)) mod 256) n;
     generateAuthUrl := auth_url;
     getToken := token_endpoint;
     getAccessToken := fun tr creds => local_access_token tr (refresh creds);
     refreshedCredentials := fun _ creds => refresh creds;
     getTokenInfo := fun _ _ => Ok tt;
     searchParams := search_params;
     readFile_error := fun _ _ => None;
     mkdir_error := fun _ _ => None;
     writeFile_error := fun _ _ _ => None;
     rm_error := fun _ _ => None |}.

(** The state of a headless attempt right after [authWithWeb]. *)
Definition headless_attempt : State := (authWithWeb headless init).2.

(** The auth command while the headless prompt is shown. *)
Definition prompt : Ui.AuthCommand :=
  {| Ui.isAuthDialogOpen := false;
     Ui.headlessAuthUrl := Some (auth_url (authUrlOpts OOB_REDIRECT_URI nonce));
     Ui.initiateHeadlessCodeEntry :=
       Some (exchangeCodeFunction headless OOB_REDIRECT_URI);
     Ui.isAuthenticating := false;
     Ui.authError := None;
     Ui.settingsWrites := [];
     Ui.console := [] |}.

(** A terminal on which nothing has happened yet. *)
Definition shell : Controller.Shell :=
  {| Controller.currentHeadlessAuthStep := None;
     Controller.opened := [];
     Controller.console := [] |}.

End Sample.

(* ===================================================================== *)
(** ** Vocabulary of the statements *)
(* ===================================================================== *)

Module Spec.

Import Js OAuth2.

(** The path of a request target: what precedes the query and fragment. *)
Definition path_of (url : list N) : list N :=
  fst (Sample.split_at 63 (fst (Sample.split_at 35 url))).

(** [t] occurs in [s]. *)
Definition contains (s t : list N) : Prop :=
  exists pre post, s = pre ++ t ++ post.

(** The response that sends the browser to the failure page. *)
Definition redirected_to (location : list N) (st : State) : Prop :=
  resHead (res st) = Some (HTTP_REDIRECT, location) /\ resEnded (res st) = true.

(** The file system is as it was. *)
Definition fs_untouched (st st' : State) : Prop :=
  files st' = files st /\ dirs st' = dirs st.

(** How the listener ends when it answers without contacting the token
    endpoint: the failure redirect, the promise rejected with [message],
    no call made, nothing else changed. *)
Definition refused (message body : list N) (st st' : State) : Prop :=
  loginComplete st' = settle (Rejected message) (loginComplete st)
  /\ res st' = mkResponse (Some (HTTP_REDIRECT, SIGN_IN_FAILURE_URL)) body true
  /\ trace st' = trace st
  /\ fs_untouched st st'
  /\ credentials st' = credentials st.

(** The calls made between two states. *)
Definition new_events (st st' : State) : list Event :=
  drop (length (trace st)) (trace st').

(** [cacheCredentials] starts with [fs.mkdir]: it was invoked when a
    call of [fs.mkdir] or [fs.writeFile] was made. *)
Definition is_fs_write (ev : Event) : bool :=
  match ev with
  | EvMkdir _ _ | EvWriteFile _ _ _ => true
  | _ => false
  end.

(** The same world with another value of the environment variable
    [GOOGLE_APPLICATION_CREDENTIALS]. *)
Definition with_override (o : option (list N)) (env : Env) : Env :=
  mkEnv (HEADLESS_LOGIN env) o (homedir env) (path_join env) (path_dirname env)
    (randomBytes env) (generateAuthUrl env) (getToken env) (getAccessToken env)
    (refreshedCredentials env)
    (getTokenInfo env) (searchParams env) (readFile_error env) (mkdir_error env)
    (writeFile_error env) (rm_error env).

(** What [fs.readFile] answers in a state. *)
Definition read_outcome (env : Env) (st : State) (path : list N)
  : outcome (list N) :=
  match readFile_error env (trace st) path with
  | Some e => Throw e
  | None =>
      match files st !! path with
      | Some content => Ok content
      | None => Throw (ENOENT path)
      end
  end.

(** Every step of the cache hydration succeeds: the file is read, it
    parses, the local check yields a non-empty token and the remote
    check accepts it. *)
Definition hydrates (env : Env) (st : State) : Prop :=
  exists content parsed tok,
    read_outcome env st (keyFile env) = Ok content
    /\ JSON.parse content = Some parsed
    /\ getAccessToken env
         (trace st ++ [EvReadFile (keyFile env) (Ok content)]) parsed
       = Ok (Some tok)
    /\ tok <> []
    /\ getTokenInfo env
         (trace st ++ [EvReadFile (keyFile env) (Ok content);
                       EvGetAccessToken (Ok (Some tok))]) tok
       = Ok tt.

(** A server after [server.close()]. *)
Definition closed_server (s : Server) : Server :=
  mkServer (srv_state s) (srv_redirectUri s) (srv_port s) true.

(** The ways a request fails the attempt, read off the branches of the
    listener. *)
Inductive login_failure (env : Env) (state redirectUri : list N) (port : N)
    (st : State) : option (list N) -> Prop :=
| unexpected_req url :
    unexpected_request url = true ->
    login_failure env state redirectUri port st url
| invalid_url u :
    searchParams env u (base_url port) = None ->
    login_failure env state redirectUri port st (Some u)
| provider_error u qs :
    searchParams env u (base_url port) = Some qs ->
    truthy_opt (qs_get qs (str "error")) = true ->
    login_failure env state redirectUri port st (Some u)
| state_mismatch u qs :
    searchParams env u (base_url port) = Some qs ->
    qs_get qs (str "state") <> Some state ->
    login_failure env state redirectUri port st (Some u)
| missing_code u qs :
    searchParams env u (base_url port) = Some qs ->
    truthy_opt (qs_get qs (str "code")) = false ->
    login_failure env state redirectUri port st (Some u)
| exchange_rejected u qs e :
    searchParams env u (base_url port) = Some qs ->
    getToken env (trace st) (default [] (qs_get qs (str "code"))) redirectUri
      = Throw e ->
    login_failure env state redirectUri port st (Some u).

(** The one way it succeeds as far as the token endpoint. *)
Definition exchange_accepted (env : Env) (state redirectUri : list N) (port : N)
    (st : State) (url : option (list N)) (tokens : json) : Prop :=
  exists u qs,
    url = Some u
    /\ unexpected_request url = false
    /\ searchParams env u (base_url port) = Some qs
    /\ truthy_opt (qs_get qs (str "error")) = false
    /\ qs_get qs (str "state") = Some state
    /\ truthy_opt (qs_get qs (str "code")) = true
    /\ getToken env (trace st) (default [] (qs_get qs (str "code"))) redirectUri
       = Ok tokens.

End Spec.


(* ===================================================================== *)
(** ** Tactics *)
(* ===================================================================== *)

(** Unfold the monad. *)
Ltac run_m :=
  unfold mbind, M_bind, mret, M_ret, throw, try_catch, try_finally, modify;
  simpl.

(** Open a state into its fields. *)
Ltac open_state st :=
  let f := fresh "fs" in let d := fresh "ds" in let c := fresh "cr" in
  let l := fresh "lc" in let r := fresh "rs" in let s := fresh "sv" in
  let t := fresh "tr" in
  destruct st as [f d c l r s t]; simpl in *; subst.

(** Replace the string literals of the goal by their code units. *)
Ltac eval_strs :=
  repeat match goal with
  | |- context [Js.str ?s] =>
      let x := eval vm_compute in (Js.str s) in change (Js.str s) with x
  end.

(** Right-nest the concatenations of the goal. *)
Ltac norm_app := repeat first [rewrite <- app_assoc | progress (cbn [app])].

(** Split a conjunction into all its parts. *)
Ltac split_all := repeat match goal with |- _ /\ _ => split end.

(* ===================================================================== *)
(** ** Strings *)
(* ===================================================================== *)

Section strings.

Import Js.

Lemma trimStart_blank s : forallb is_whitespace s = true -> trimStart s = [].
Proof.
  induction s as [|c s IH]; simpl; [done|].
  intros [Hc Hs]%andb_true_iff. rewrite Hc. auto.
Qed.

Lemma trim_blank s : forallb is_whitespace s = true -> trim s = [].
Proof. intros H. unfold trim. rewrite trimStart_blank; done. Qed.

Lemma trimStart_nil_blank s : trimStart s = [] -> forallb is_whitespace s = true.
Proof.
  induction s as [|c s IH]; simpl; [done|].
  destruct (is_whitespace c); [auto | discriminate].
Qed.

Lemma trimStart_head s c r : trimStart s = c :: r -> is_whitespace c = false.
Proof.
  induction s as [|d s IH]; simpl; [done|].
  destruct (is_whitespace d) eqn:Ed; [auto|].
  intros [= -> _]. done.
Qed.

Lemma trimStart_last l c : is_whitespace c = false -> trimStart (l ++ [c]) <> [].
Proof.
  intros Hc. induction l as [|d l IH]; simpl.
  - by rewrite Hc.
  - by destruct (is_whitespace d).
Qed.

Lemma trim_nil_blank s : trim s = [] -> forallb is_whitespace s = true.
Proof.
  unfold trim, trimEnd. intros H.
  apply trimStart_nil_blank.
  destruct (trimStart s) as [|c r] eqn:E; [done|].
  exfalso. apply trimStart_head in E.
  apply (f_equal (@rev N)) in H. rewrite rev_involutive in H. simpl in H.
  by apply (trimStart_last (rev r) c).
Qed.

Lemma startsWith_spec t s : startsWith t s = true <-> exists post, s = t ++ post.
Proof.
  revert s. induction t as [|c t IH]; intros s; simpl.
  - split; eauto.
  - destruct s as [|d s].
    + split; [done | intros [post H]; done].
    + rewrite andb_true_iff, N.eqb_eq, IH. split.
      * intros [-> [post ->]]. eauto.
      * intros [post H]. injection H as -> ->. eauto.
Qed.

Lemma indexOf_from_lower t s i :
  (indexOf_from t s i = -1 \/ i <= indexOf_from t s i)%Z.
Proof.
  revert i. induction s as [|d s IH]; intros i; simpl.
  - destruct (startsWith t []); lia.
  - destruct (startsWith t (d :: s)); [lia|].
    destruct (IH (i + 1)%Z); lia.
Qed.

Lemma indexOf_from_none t s i :
  (0 <= i)%Z ->
  indexOf_from t s i = (-1)%Z <-> ~ Spec.contains s t.
Proof.
  revert i. induction s as [|d s IH]; intros i Hi; simpl.
  - destruct (startsWith t []) eqn:E.
    + apply startsWith_spec in E as [post E]. split; [lia|].
      intros Hn. exfalso. apply Hn. exists [], post. done.
    + split; [|done]. intros _ (pre & post & H).
      destruct pre; [|done]. simpl in H.
      assert (startsWith t [] = true) by (apply startsWith_spec; eauto).
      congruence.
  - destruct (startsWith t (d :: s)) eqn:E.
    + apply startsWith_spec in E as [post E]. split; [lia|].
      intros Hn. exfalso. apply Hn. exists [], post. done.
    + rewrite IH by lia. split.
      * intros Hn (pre & post & H). destruct pre as [|p pre].
        -- simpl in H.
           assert (startsWith t (d :: s) = true) by (apply startsWith_spec; eauto).
           congruence.
        -- injection H as -> ->. apply Hn. by exists pre, post.
      * intros Hn (pre & post & ->). apply Hn. by exists (d :: pre), post.
Qed.

(** [indexOf] answers [-1] exactly when there is no occurrence. *)
Lemma indexOf_none s t : indexOf s t = (-1)%Z <-> ~ Spec.contains s t.
Proof. apply indexOf_from_none. lia. Qed.

End strings.

(* ===================================================================== *)
(** ** JSON: what [stringify] writes, [parse] reads back *)
(* ===================================================================== *)

Section json_strings.
Import Js JSON.

Lemma hex_value_digit d : d < 16 -> hex_value (hex_digit d) = Some d.
Proof.
  intros H. destruct d as [|p]; [reflexivity|].
  do 4 (destruct p as [p|p|]; try reflexivity; try lia).
Qed.

Lemma hex4_value c :
  c < 65536 ->
  (c / 4096 mod 16) * 4096 + (c / 256 mod 16) * 256 + (c / 16 mod 16) * 16
    + c mod 16 = c.
Proof.
  intros H.
  assert (H1 := N.div_mod c 16 ltac:(done)).
  assert (H2 := N.div_mod (c / 16) 16 ltac:(done)).
  assert (H3 := N.div_mod (c / 256) 16 ltac:(done)).
  assert (E1 : c / 16 / 16 = c / 256) by (by rewrite N.Div0.div_div).
  assert (E2 : c / 256 / 16 = c / 4096) by (by rewrite N.Div0.div_div).
  rewrite E1 in H2. rewrite E2 in H3.
  assert (c / 4096 < 16) by (apply N.Div0.div_lt_upper_bound; lia).
  rewrite (N.mod_small (c / 4096) 16) by done.
  lia.
Qed.

Lemma parse_chars_verbatim c rest :
  32 <= c -> c <> 34 -> c <> 92 ->
  parse_chars (c :: rest) = cont c (parse_chars rest).
Proof.
  intros H1 H2 H3. cbn [parse_chars].
  rewrite (proj2 (N.eqb_neq c 34)), (proj2 (N.eqb_neq c 92)) by done.
  rewrite (proj2 (N.ltb_ge c 32)) by done. reflexivity.
Qed.

Lemma parse_chars_unicode_escape c rest :
  c < 65536 ->
  parse_chars (unicode_escape c ++ rest) = cont c (parse_chars rest).
Proof.
  intros H. unfold unicode_escape, hex4. cbn [app parse_chars].
  change (92 =? 34) with false. change (92 =? 92) with true.
  change (117 =? 117) with true. cbv iota.
  rewrite !hex_value_digit by (apply N.mod_lt; done).
  rewrite hex4_value by done. reflexivity.
Qed.

Lemma parse_chars_escape_unit c rest :
  c < 65536 -> is_high_surrogate c = false -> is_low_surrogate c = false ->
  parse_chars (escape_unit c ++ rest) = cont c (parse_chars rest).
Proof.
  intros H Hh Hl. unfold escape_unit.
  repeat match goal with
  | |- context [if ?c =? ?k then _ else _] =>
      destruct (N.eqb_spec c k) as [->|?]; [reflexivity|]
  end.
  destruct (N.ltb_spec c 32).
  - by apply parse_chars_unicode_escape.
  - by apply parse_chars_verbatim.
Qed.

Lemma parse_chars_quote_units s rest :
  Forall (fun c => c < 65536) s ->
  parse_chars (quote_units s ++ 34 :: rest) = Some (s, rest).
Proof.
  remember (length s) as n eqn:Hn. revert s Hn.
  induction n as [n IH] using lt_wf_ind. intros s Hn Hs.
  destruct s as [|c r]; [reflexivity|].
  apply Forall_cons in Hs as [Hc Hr].
  cbn [quote_units].
  destruct (is_high_surrogate c) eqn:Hh.
  - assert (32 <= c /\ c <> 34 /\ c <> 92) as (?&?&?).
    { apply andb_true_iff in Hh as [?%N.leb_le ?%N.leb_le]. lia. }
    destruct r as [|d r'].
    + rewrite parse_chars_unicode_escape by done. reflexivity.
    + destruct (is_low_surrogate d) eqn:Hd.
      * apply Forall_cons in Hr as [Hd' Hr'].
        assert (32 <= d /\ d <> 34 /\ d <> 92) as (?&?&?).
        { apply andb_true_iff in Hd as [?%N.leb_le ?%N.leb_le]. lia. }
        cbn [app]. rewrite !parse_chars_verbatim by done.
        rewrite (IH (length r')); [reflexivity| simpl in Hn; lia | done | done].
      * rewrite <- app_assoc, parse_chars_unicode_escape by done.
        rewrite (IH (length (d :: r'))); [reflexivity| simpl in *; lia | done | done].
  - destruct (is_low_surrogate c) eqn:Hl.
    + rewrite <- app_assoc, parse_chars_unicode_escape by done.
      rewrite (IH (length r)); [reflexivity| simpl in *; lia | done | done].
    + rewrite <- app_assoc, parse_chars_escape_unit by done.
      rewrite (IH (length r)); [reflexivity| simpl in *; lia | done | done].
Qed.
End json_strings.

Section json_numbers.
Import Js JSON.

Lemma take_digits_uint u rest :
  no_digit_head rest ->
  take_digits (digits_of_uint u ++ rest) = (digits_of_uint u, rest).
Proof.
  intros Hr. induction u; cbn [digits_of_uint app take_digits];
    try (change (is_digit _) with true; cbv iota; rewrite IHu; reflexivity).
  destruct rest as [|c r]; [reflexivity|]. simpl in *. by rewrite Hr.
Qed.

Lemma uint_of_digits_uint u : uint_of_digits (digits_of_uint u) = u.
Proof. induction u; simpl; congruence. Qed.

Lemma nzhead_head d :
  match Decimal.nzhead d with Decimal.D0 _ => False | _ => True end.
Proof. induction d; simpl; done. Qed.

Lemma to_uint_pos_head p :
  exists c ds, digits_of_uint (N.to_uint (Npos p)) = c :: ds
               /\ is_digit c = true /\ c <> 48 /\ c <> 45.
Proof.
  assert (E : N.to_uint (Npos p) = Decimal.unorm (N.to_uint (Npos p))).
  { rewrite <- DecimalN.Unsigned.to_of, DecimalN.Unsigned.of_to. reflexivity. }
  assert (Hnz : N.of_uint (N.to_uint (Npos p)) = Npos p)
    by apply DecimalN.Unsigned.of_to.
  revert E Hnz. generalize (N.to_uint (Npos p)) as u. intros u E Hnz.
  unfold Decimal.unorm in E. pose proof (nzhead_head u) as Hh.
  destruct (Decimal.nzhead u) eqn:En; rewrite E in *;
    try done; try (simpl; eexists _, _; split; [reflexivity|done]).
Qed.

Lemma parse_after_int_end neg ds rest :
  number_end rest ->
  parse_after_int neg ds rest = Some (number_of neg ds, rest).
Proof.
  intros Hr. unfold parse_after_int, parse_frac, parse_exp.
  destruct rest as [|c r]; [reflexivity|].
  destruct Hr as (_ & H1 & H2 & H3).
  rewrite (proj2 (N.eqb_neq c 46)), (proj2 (N.eqb_neq c 101)),
    (proj2 (N.eqb_neq c 69)) by done.
  reflexivity.
Qed.

Lemma parse_number_show_N (neg : bool) p rest :
  number_end rest ->
  parse_number ((if neg then [45] else []) ++ show_N (Npos p) ++ rest)
    = Some (JNum (if neg then Zneg p else Zpos p), rest).
Proof.
  intros Hr. unfold show_N.
  destruct (to_uint_pos_head p) as (c & ds & E & Hd & H0 & Hm).
  assert (Hnd : no_digit_head rest).
  { destruct rest; [done|]. apply Hr. }
  assert (Hp : parse_number (show_N (Npos p) ++ rest)
               = Some (JNum (Zpos p), rest) /\
               parse_number (45 :: show_N (Npos p) ++ rest)
               = Some (JNum (Zneg p), rest)).
  { unfold parse_number, show_N. rewrite E. cbn [app].
    rewrite (proj2 (N.eqb_neq c 45)), (proj2 (N.eqb_neq c 48)), Hd by done.
    change (45 =? 45) with true. cbv iota.
    rewrite (proj2 (N.eqb_neq c 48)), Hd by done.
    change (c :: ds ++ rest) with ((c :: ds) ++ rest). rewrite <- E.
    rewrite take_digits_uint by done.
    rewrite !parse_after_int_end by done.
    unfold number_of. rewrite uint_of_digits_uint, DecimalN.Unsigned.of_to.
    done. }
  destruct neg; simpl; apply Hp.
Qed.

Lemma parse_number_show_Z z rest :
  number_end rest ->
  parse_number (show_Z z ++ rest) = Some (JNum z, rest).
Proof.
  intros Hr. destruct z as [|p|p].
  - unfold parse_number. simpl. by rewrite parse_after_int_end.
  - apply (parse_number_show_N false p rest Hr).
  - apply (parse_number_show_N true p rest Hr).
Qed.

Lemma show_Z_head z :
  exists c s, show_Z z = c :: s /\ (is_digit c = true \/ c = 45).
Proof.
  destruct z as [|p|p]; simpl.
  - eexists _, _. split; [reflexivity|]. by left.
  - destruct (to_uint_pos_head p) as (c & ds & E & Hd & _).
    unfold show_N. rewrite E. eauto.
  - eexists _, _. split; [reflexivity|]. by right.
Qed.
End json_numbers.

Section json_values.
Import Js JSON.

Lemma skip_ws_blanks ws s : blanks ws -> skip_ws (ws ++ s) = skip_ws s.
Proof.
  induction 1 as [|c ws Hc _ IH]; [done|]. simpl. by rewrite Hc.
Qed.

Lemma skip_ws_head c s : is_ws c = false -> skip_ws (c :: s) = c :: s.
Proof. intros H. simpl. by rewrite H. Qed.

Lemma blanks_app a b : blanks a -> blanks b -> blanks (a ++ b).
Proof. apply Forall_app_2. Qed.

Lemma blanks_gap : blanks gap.
Proof. repeat constructor. Qed.

Lemma wf_arr vs : wf (JArr vs) <-> Forall wf vs.
Proof.
  simpl. induction vs as [|v vs IH]; simpl.
  - split; constructor.
  - rewrite IH. split.
    + intros [??]. by constructor.
    + by intros [??]%Forall_cons.
Qed.

Lemma wf_obj kvs :
  wf (JObj kvs) <->
  NoDup (List.map fst kvs) /\ Forall (fun kv => wf_string (fst kv) /\ wf (snd kv)) kvs.
Proof.
  simpl. apply and_iff_compat_l.
  induction kvs as [|[k v] kvs IH]; simpl.
  - split; constructor.
  - rewrite IH. split.
    + intros (?&?&?). by constructor.
    + intros [[??] ?]%Forall_cons. done.
Qed.

Lemma serialize_head ind v :
  wf v -> exists c s, serialize ind v = c :: s /\ opens c.
Proof.
  destruct v as [| [|] | z | l | | s | vs | kvs]; intros Hwf; simpl.
  - by eexists _, _.
  - by eexists _, _.
  - by eexists _, _.
  - destruct (show_Z_head z) as (c & s & -> & Hc). exists c, s. split; [done|].
    destruct Hc as [Hd| ->]; [|done].
    apply andb_true_iff in Hd as [?%N.leb_le ?%N.leb_le].
    unfold opens, is_ws.
    repeat split; try lia.
    repeat (apply orb_false_iff; split); apply N.eqb_neq; lia.
  - done.
  - done.
  - by eexists _, _.
  - destruct (List.map _ vs); by eexists _, _.
  - destruct (List.map _ kvs); by eexists _, _.
Qed.

Lemma parse_value_number f ws c r :
  blanks ws -> is_digit c = true \/ c = 45 ->
  parse_value (S f) (ws ++ c :: r) = parse_number (c :: r).
Proof.
  intros Hws Hc. cbn [parse_value]. rewrite skip_ws_blanks by done.
  assert (Hn : is_ws c = false /\ c <> 123 /\ c <> 91 /\ c <> 34
               /\ c <> 116 /\ c <> 102 /\ c <> 110).
  { destruct Hc as [Hd| ->]; [|done].
    apply andb_true_iff in Hd as [?%N.leb_le ?%N.leb_le].
    unfold is_ws. repeat split; try lia.
    repeat (apply orb_false_iff; split); apply N.eqb_neq; lia. }
  destruct Hn as (Hw & H1 & H2 & H3 & H4 & H5 & H6).
  rewrite skip_ws_head by done.
  rewrite (proj2 (N.eqb_neq c 123)), (proj2 (N.eqb_neq c 91)),
    (proj2 (N.eqb_neq c 34)) by done.
  assert (E : forall k t, k <> c -> startsWith (k :: t) (c :: r) = false).
  { intros k t Hk. simpl. by rewrite (proj2 (N.eqb_neq k c)). }
  unfold str. simpl List.map.
  rewrite !E by (simpl; lia). reflexivity.
Qed.
End json_values.

Section json_roundtrip.
Import Js JSON.

Lemma value_end_number rest : value_end rest -> number_end rest.
Proof. destruct rest as [|c r]; [done|]. intros [->| ->]; done. Qed.

Lemma skip_ws_value_end ws c s :
  blanks ws -> is_ws c = false -> skip_ws (ws ++ c :: s) = c :: s.
Proof. intros. rewrite skip_ws_blanks by done. by apply skip_ws_head. Qed.

Lemma join_cons s p ps : ps <> [] -> join s (p :: ps) = p ++ s ++ join s ps.
Proof. by destruct ps. Qed.

Lemma reads_elements_step f :
  reads_value f -> reads_elements f -> reads_elements (S f).
Proof.
  intros Hv He vs ws ind outer rest Hne Hwf Hfuel Hws Hind Hout.
  destruct vs as [|v vs]; [done|]. clear Hne.
  apply Forall_cons in Hwf as [Hwv Hwvs].
  cbn [elems_fuel fold_right] in Hfuel. fold (elems_fuel vs) in Hfuel.
  cbn [parse_elements].
  destruct vs as [|v2 vs].
  - cbn [List.map join].
    rewrite Hv; [|done|lia|done|done|by right].
    change (10 :: outer ++ 93 :: rest) with ((10 :: outer) ++ 93 :: rest).
    rewrite skip_ws_value_end by (done || by constructor).
    reflexivity.
  - remember (v2 :: vs) as vs' eqn:E.
    assert (Hj : join (sep ind) (List.map (serialize ind) (v :: vs'))
                 = serialize ind v ++ sep ind
                   ++ join (sep ind) (List.map (serialize ind) vs')).
    { subst vs'. reflexivity. }
    rewrite Hj. rewrite <- !app_assoc.
    rewrite Hv; [|done|lia|done|done|by left].
    unfold sep at 1. cbn [app]. rewrite skip_ws_head by done.
    change (44 =? 44) with true. cbv iota.
    change (10 :: ind ++ ?x) with ((10 :: ind) ++ x).
    rewrite He; [reflexivity|by subst|done|lia| |done|done].
    constructor; [done|done].
Qed.

Lemma reads_members_step f :
  reads_value f -> reads_members f -> reads_members (S f).
Proof.
  intros Hv Hm kvs ws ind outer rest Hne Hwf Hfuel Hws Hind Hout.
  destruct kvs as [|[k v] kvs]; [done|]. clear Hne.
  apply Forall_cons in Hwf as [[Hwk Hwv] Hwvs]. simpl in Hwk, Hwv.
  cbn [members_fuel fold_right] in Hfuel. fold (members_fuel kvs) in Hfuel.
  cbn [parse_members].
  assert (Hj : exists tail,
             join (sep ind) (List.map (member_text ind) ((k, v) :: kvs))
               ++ 10 :: outer ++ 125 :: rest
             = 34 :: quote_units k ++ 34 :: 58 :: 32 :: serialize ind v ++ tail
             /\ (tail = 10 :: outer ++ 125 :: rest /\ kvs = []
                 \/ tail = 44 :: (10 :: ind)
                              ++ join (sep ind) (List.map (member_text ind) kvs)
                              ++ 10 :: outer ++ 125 :: rest /\ kvs <> [])).
  { destruct kvs as [|kv2 kvs].
    - eexists. split; [|left; done]. cbn [List.map join].
      unfold member_text, quote.
      cbn [app]. rewrite <- !app_assoc. cbn [app]. reflexivity.
    - eexists. split; [|right; done].
      rewrite map_cons, join_cons by done.
      unfold member_text at 1, quote, sep at 1.
      cbn [app]. rewrite <- !app_assoc. cbn [app]. rewrite <- !app_assoc.
      reflexivity. }
  destruct Hj as (tail & -> & Htail).
  rewrite skip_ws_value_end by done.
  cbn [startsWith skipn]. change (34 =? 34) with true. cbv iota. cbn [andb].
  rewrite drop_0.
  rewrite parse_chars_quote_units by done.
  rewrite skip_ws_head by done.
  cbn [startsWith skipn]. change (58 =? 58) with true. cbv iota. cbn [andb].
  rewrite ?drop_0.
  change (32 :: serialize ind v ++ tail) with ([32] ++ serialize ind v ++ tail).
  destruct Htail as [[-> ->]|[-> Hne]].
  - rewrite Hv; [|done|simpl in Hfuel; lia|by repeat constructor|done|by right].
    change (10 :: outer ++ 125 :: rest) with ((10 :: outer) ++ 125 :: rest).
    rewrite skip_ws_value_end by (done || by constructor).
    reflexivity.
  - rewrite Hv; [|done|lia|by repeat constructor|done|by left].
    rewrite skip_ws_head by done.
    change (44 =? 44) with true. cbv iota.
    rewrite Hm; [reflexivity|done|done|lia| |done|done].
    by constructor.
Qed.

Lemma set_entry_fresh k v kvs :
  k ∉ List.map fst kvs -> set_entry k v kvs = kvs ++ [(k, v)].
Proof.
  induction kvs as [|[k' v'] kvs IH]; intros Hk; simpl; [done|].
  simpl in Hk. apply not_elem_of_cons in Hk as [Hne Hk].
  rewrite bool_decide_eq_false_2 by done. by rewrite IH.
Qed.

Lemma fold_set_entry es acc :
  NoDup (List.map fst (acc ++ es)) ->
  fold_left (fun a kv => set_entry (fst kv) (snd kv) a) es acc = acc ++ es.
Proof.
  revert acc. induction es as [|[k v] es IH]; intros acc Hnd; simpl.
  - by rewrite app_nil_r.
  - rewrite set_entry_fresh.
    + rewrite IH; rewrite <- app_assoc; done.
    + rewrite map_app in Hnd. simpl in Hnd.
      apply NoDup_app in Hnd as (_ & Hd & _).
      intros Hin. apply (Hd k Hin). left.
Qed.

Lemma object_of_entries kvs : NoDup (List.map fst kvs) -> object_of kvs = JObj kvs.
Proof. intros H. unfold object_of. by rewrite fold_set_entry. Qed.

Lemma reads_value_step f :
  reads_elements f -> reads_members f -> reads_value (S f).
Proof.
  intros He Hm v ws ind rest Hwf Hfuel Hws Hind Hend.
  destruct v as [| b | z | l | | s | vs | kvs].
  - cbn [parse_value serialize]. eval_strs. cbn [app].
    rewrite skip_ws_value_end by done. reflexivity.
  - cbn [parse_value serialize]. destruct b; eval_strs; cbn [app];
      rewrite skip_ws_value_end by done; reflexivity.
  - cbn [serialize].
    destruct (show_Z_head z) as (c & t & E & Hc).
    rewrite E. cbn [app]. rewrite parse_value_number by done.
    change (c :: t ++ rest) with ((c :: t) ++ rest). rewrite <- E.
    apply parse_number_show_Z. by apply value_end_number.
  - done.
  - done.
  - cbn [parse_value serialize]. unfold quote. cbn [app].
    rewrite skip_ws_value_end by done.
    change (34 =? 123) with false. change (34 =? 91) with false.
    change (34 =? 34) with true. cbv iota.
    rewrite <- app_assoc. cbn [app].
    rewrite parse_chars_quote_units by done. reflexivity.
  - apply wf_arr in Hwf. cbn [fuel_of] in Hfuel. fold (elems_fuel vs) in Hfuel.
    destruct vs as [|v vs].
    + cbn [parse_value serialize List.map]. eval_strs. cbn [app].
      rewrite skip_ws_value_end by done. reflexivity.
    + remember (v :: vs) as vs' eqn:E.
      assert (Hs : serialize ind (JArr vs') ++ rest
                   = 91 :: (10 :: ind ++ gap)
                        ++ join (sep (ind ++ gap))
                             (List.map (serialize (ind ++ gap)) vs')
                        ++ 10 :: ind ++ 93 :: rest).
      { subst vs'. cbn [serialize List.map]. fold (sep (ind ++ gap)).
        norm_app. reflexivity. }
      rewrite Hs. cbn [parse_value].
      rewrite skip_ws_value_end by done.
      change (91 =? 123) with false. change (91 =? 91) with true. cbv iota.
      assert (Hh : exists c t,
                 skip_ws ((10 :: ind ++ gap)
                          ++ join (sep (ind ++ gap))
                               (List.map (serialize (ind ++ gap)) vs')
                          ++ 10 :: ind ++ 93 :: rest) = c :: t /\ opens c).
      { subst vs'. apply Forall_cons in Hwf as [Hwv _].
        destruct (serialize_head (ind ++ gap) v Hwv) as (c & t & Ec & Hc).
        rewrite skip_ws_blanks
          by (constructor; [done|apply blanks_app; [done|apply blanks_gap]]).
        rewrite map_cons. destruct vs.
        - cbn [List.map join]. rewrite Ec. cbn [app].
          rewrite skip_ws_head by apply Hc. eauto.
        - rewrite join_cons by done. rewrite Ec. cbn [app].
          rewrite skip_ws_head by apply Hc. eauto. }
      destruct Hh as (c & t & -> & Hc).
      cbn [startsWith]. rewrite (proj2 (N.eqb_neq 93 c))
        by (destruct Hc as (_ & ? & _); congruence).
      cbn [andb].
      rewrite He; [reflexivity|by subst|done|lia| |by apply blanks_app, blanks_gap|done].
      constructor; [done|]. by apply blanks_app, blanks_gap.
  - apply wf_obj in Hwf as [Hnd Hwf].
    cbn [fuel_of] in Hfuel. fold (members_fuel kvs) in Hfuel.
    destruct kvs as [|kv kvs].
    + cbn [parse_value serialize List.map]. eval_strs. cbn [app].
      rewrite skip_ws_value_end by done. reflexivity.
    + remember (kv :: kvs) as kvs' eqn:E.
      assert (Hs : serialize ind (JObj kvs') ++ rest
                   = 123 :: (10 :: ind ++ gap)
                        ++ join (sep (ind ++ gap))
                             (List.map (member_text (ind ++ gap)) kvs')
                        ++ 10 :: ind ++ 125 :: rest).
      { subst kvs'. cbn [serialize List.map]. fold (sep (ind ++ gap)).
        fold (member_text (ind ++ gap)).
        norm_app. reflexivity. }
      rewrite Hs. cbn [parse_value].
      rewrite skip_ws_value_end by done.
      change (123 =? 123) with true. cbv iota.
      assert (Hh : exists t,
                 skip_ws ((10 :: ind ++ gap)
                          ++ join (sep (ind ++ gap))
                               (List.map (member_text (ind ++ gap)) kvs')
                          ++ 10 :: ind ++ 125 :: rest) = 34 :: t).
      { subst kvs'.
        rewrite skip_ws_blanks
          by (constructor; [done|apply blanks_app; [done|apply blanks_gap]]).
        rewrite map_cons. destruct kv as [k w]. destruct kvs.
        - cbn [List.map join]. unfold member_text, quote. cbn [app].
          rewrite skip_ws_head by done. eauto.
        - rewrite join_cons by done. unfold member_text at 1, quote. cbn [app].
          rewrite skip_ws_head by done. eauto. }
      destruct Hh as (t & ->).
      cbn [startsWith]. change (125 =? 34) with false. cbn [andb].
      rewrite Hm; [|by subst|done|lia| |by apply blanks_app, blanks_gap|done].
      * by rewrite object_of_entries.
      * constructor; [done|]. by apply blanks_app, blanks_gap.
Qed.

Lemma reads_all fuel : reads_value fuel /\ reads_elements fuel /\ reads_members fuel.
Proof.
  induction fuel as [|f (Hv & He & Hm)].
  - split; [|split].
    + intros v ws ind rest _ Hf. destruct v; simpl in Hf; lia.
    + intros [|v vs] ws ind outer rest Hne _ Hf; [done|]. simpl in Hf. lia.
    + intros [|[k v] kvs] ws ind outer rest Hne _ Hf; [done|]. simpl in Hf. lia.
  - split; [|split].
    + by apply reads_value_step.
    + by apply reads_elements_step.
    + by apply reads_members_step.
Qed.
End json_roundtrip.

Section json_fuel.
Import Js JSON.

Lemma json_ind' (P : json -> Prop)
  (Hnull : P JNull) (Hbool : forall b, P (JBool b)) (Hnum : forall z, P (JNum z))
  (Hlit : forall l, P (JNumLit l)) (Hnf : P JNonFinite)
  (Hstr : forall s, P (JStr s))
  (Harr : forall vs, Forall P vs -> P (JArr vs))
  (Hobj : forall kvs, Forall (fun kv => P (snd kv)) kvs -> P (JObj kvs)) :
  forall v, P v.
Proof.
  fix IH 1. intros [| b | z | l | | s | vs | kvs].
  - exact Hnull.
  - apply Hbool.
  - apply Hnum.
  - apply Hlit.
  - exact Hnf.
  - apply Hstr.
  - apply Harr. induction vs as [|v vs IHvs]; constructor.
    + apply IH.
    + exact IHvs.
  - apply Hobj. induction kvs as [|[k v] kvs IHkvs]; constructor.
    + apply IH.
    + exact IHkvs.
Qed.

Lemma elems_fuel_join (ser : json -> list N) s vs :
  (1 <= length s)%nat ->
  Forall (fun v => fuel_of v <= length (ser v))%nat vs ->
  (elems_fuel vs <= length (join s (List.map ser vs)) + 2)%nat.
Proof.
  intros Hs. induction 1 as [|v vs Hv Hvs IH]; [simpl; lia|].
  cbn [elems_fuel fold_right]. fold (elems_fuel vs).
  destruct vs as [|v2 vs].
  - simpl. lia.
  - rewrite map_cons, join_cons by done. rewrite !length_app. lia.
Qed.

Lemma members_fuel_join ind s kvs :
  (1 <= length s)%nat ->
  Forall (fun kv : list N * json =>
            fuel_of (snd kv) <= length (serialize ind (snd kv)))%nat kvs ->
  (members_fuel kvs <= length (join s (List.map (member_text ind) kvs)) + 2)%nat.
Proof.
  intros Hs. induction 1 as [|[k v] kvs Hv Hvs IH]; [simpl; lia|].
  cbn [members_fuel fold_right]. fold (members_fuel kvs). simpl in Hv.
  assert (length (serialize ind v) <= length (member_text ind (k, v)))%nat.
  { unfold member_text. rewrite !length_app. lia. }
  destruct kvs as [|kv2 kvs].
  - cbn [List.map join]. simpl members_fuel. lia.
  - rewrite map_cons, join_cons by done. rewrite !length_app. lia.
Qed.

Lemma fuel_le_length v :
  wf v -> forall ind, (fuel_of v <= length (serialize ind v))%nat.
Proof.
  induction v as [| b | z | l | | s | vs IH | kvs IH] using json_ind';
    intros Hwf ind.
  - simpl. lia.
  - destruct b; simpl; lia.
  - cbn [serialize fuel_of].
    destruct (show_Z_head z) as (c & t & -> & _). simpl. lia.
  - done.
  - done.
  - cbn [serialize fuel_of]. unfold quote. simpl. lia.
  - apply wf_arr in Hwf.
    cbn [fuel_of]. fold (elems_fuel vs).
    assert (Hall : Forall (fun v => fuel_of v
                     <= length (serialize (ind ++ gap) v))%nat vs).
    { rewrite Forall_forall in *. intros v Hin. apply IH; auto. }
    pose proof (elems_fuel_join (serialize (ind ++ gap)) (sep (ind ++ gap)) vs
                  ltac:(simpl; lia) Hall) as Hb.
    destruct vs as [|v vs]; [simpl; lia|].
    cbn [serialize]. rewrite map_cons in *. fold (sep (ind ++ gap)).
    rewrite !length_app. simpl length at 1. simpl in Hb |- *. lia.
  - apply wf_obj in Hwf as [_ Hwf].
    cbn [fuel_of]. fold (members_fuel kvs).
    assert (Hall : Forall (fun kv : list N * json => fuel_of (snd kv)
                     <= length (serialize (ind ++ gap) (snd kv)))%nat kvs).
    { rewrite Forall_forall in *. intros kv Hin. apply IH; [done|].
      by apply Hwf. }
    pose proof (members_fuel_join (ind ++ gap) (sep (ind ++ gap)) kvs
                  ltac:(simpl; lia) Hall) as Hb.
    destruct kvs as [|kv kvs]; [simpl; lia|].
    cbn [serialize]. fold (member_text (ind ++ gap)). fold (sep (ind ++ gap)).
    rewrite map_cons in *.
    rewrite !length_app. simpl in Hb |- *. lia.
Qed.

(** Reading back what [JSON.stringify] wrote. *)
Lemma parse_stringify v : wf v -> parse (stringify v) = Some v.
Proof.
  intros Hwf. unfold parse, stringify.
  destruct (reads_all (S (2 * length (serialize [] v)))) as (Hv & _ & _).
  pose proof (Hv v [] [] [] Hwf) as H. rewrite app_nil_r in H. simpl app in H.
  rewrite H; [reflexivity| |constructor|constructor|done].
  pose proof (fuel_le_length v Hwf []). lia.
Qed.
End json_fuel.

(* ===================================================================== *)
(** ** The callback receiver *)
(* ===================================================================== *)

Section callback_receiver.

Import Js OAuth2 Spec.

Variable env : Env.
Variables (state redirectUri : list N) (port : N).

Lemma listener_unexpected url st :
  res st = fresh_response ->
  unexpected_request url = true ->
  exists st',
    requestListener env state redirectUri port url st = (Ok tt, st')
    /\ refused (str "Unexpected request: " ++ show_opt url) [] st st'.
Proof.
  intros Hres Hu. unfold requestListener. rewrite Hu.
  open_state st. run_m. eexists. split; [reflexivity|].
  unfold refused, fs_untouched. by destruct sv.
Qed.

Lemma listener_error_param u qs st :
  res st = fresh_response ->
  unexpected_request (Some u) = false ->
  searchParams env u (base_url port) = Some qs ->
  truthy_opt (qs_get qs (str "error")) = true ->
  exists st',
    requestListener env state redirectUri port (Some u) st = (Ok tt, st')
    /\ refused (str "Error during authentication: "
                ++ show_opt (qs_get qs (str "error"))) [] st st'.
Proof.
  intros Hres Hu Hq He. unfold requestListener. rewrite Hu.
  cbn [show_opt]. rewrite Hq, He.
  open_state st. run_m. eexists. split; [reflexivity|].
  unfold refused, fs_untouched. by destruct sv.
Qed.

Lemma listener_state_mismatch u qs st :
  res st = fresh_response ->
  unexpected_request (Some u) = false ->
  searchParams env u (base_url port) = Some qs ->
  truthy_opt (qs_get qs (str "error")) = false ->
  qs_get qs (str "state") <> Some state ->
  exists st',
    requestListener env state redirectUri port (Some u) st = (Ok tt, st')
    /\ refused MSG_STATE_MISMATCH MSG_STATE_MISMATCH st st'.
Proof.
  intros Hres Hu Hq He Hs. unfold requestListener. rewrite Hu.
  cbn [show_opt]. rewrite Hq, He.
  rewrite bool_decide_eq_false_2 by done. cbn [negb].
  open_state st. run_m. eexists. split; [reflexivity|].
  unfold refused, fs_untouched. by destruct sv.
Qed.

Lemma listener_missing_code u qs st :
  res st = fresh_response ->
  unexpected_request (Some u) = false ->
  searchParams env u (base_url port) = Some qs ->
  truthy_opt (qs_get qs (str "error")) = false ->
  qs_get qs (str "state") = Some state ->
  truthy_opt (qs_get qs (str "code")) = false ->
  exists st',
    requestListener env state redirectUri port (Some u) st = (Ok tt, st')
    /\ refused MSG_NO_CODE_FOUND [] st st'.
Proof.
  intros Hres Hu Hq He Hs Hc. unfold requestListener. rewrite Hu.
  cbn [show_opt]. rewrite Hq, He, Hc.
  rewrite bool_decide_eq_true_2 by done. cbn [negb].
  open_state st. run_m. eexists. split; [reflexivity|].
  unfold refused, fs_untouched. by destruct sv.
Qed.

(** When the URL constructor throws, the [catch] block answers. *)
Lemma listener_invalid_url u st :
  res st = fresh_response ->
  unexpected_request (Some u) = false ->
  searchParams env u (base_url port) = None ->
  exists st',
    requestListener env state redirectUri port (Some u) st = (Ok tt, st')
    /\ refused MSG_INVALID_URL [] st st'.
Proof.
  intros Hres Hu Hq. unfold requestListener. rewrite Hu.
  cbn [show_opt]. rewrite Hq.
  open_state st. run_m. eexists. split; [reflexivity|].
  unfold refused, fs_untouched. by destruct sv.
Qed.

Lemma new_events_same st st' : trace st' = trace st -> new_events st st' = [].
Proof. intros E. unfold new_events. rewrite E. apply drop_all. Qed.

Lemma new_events_app st st' more :
  trace st' = trace st ++ more -> new_events st st' = more.
Proof. intros E. unfold new_events. rewrite E. apply drop_app_length. Qed.

Lemma refused_redirected m b st st' :
  refused m b st st' -> redirected_to SIGN_IN_FAILURE_URL st'.
Proof. intros (_ & E & _). unfold redirected_to. by rewrite E. Qed.

(** The run of [cacheCredentials], by what the file system answers. *)
Lemma cacheCredentials_run creds st :
  let P := getCachedCredentialPath env in
  let D := path_dirname env P in
  let text := JSON.stringify creds in
  cacheCredentials env creds st =
    match mkdir_error env (trace st) D with
    | Some e => (Throw e, log (EvMkdir D (Throw e)) st)
    | None =>
        let st1 :=
          log (EvMkdir D (Ok tt))
            (mkState (files st) ({[ D ]} ∪ dirs st) (credentials st)
               (loginComplete st) (res st) (server st) (trace st)) in
        match writeFile_error env (trace st1) P text with
        | Some e => (Throw e, log (EvWriteFile P text (Throw e)) st1)
        | None =>
            (Ok tt,
             log (EvWriteFile P text (Ok tt))
               (mkState (<[ P := text ]> (files st1)) (dirs st1) (credentials st1)
                  (loginComplete st1) (res st1) (server st1) (trace st1)))
        end
    end.
Proof.
  intros P D text. unfold cacheCredentials. fold P D text.
  unfold mbind, M_bind, fs_mkdir.
  destruct (mkdir_error env (trace st) D); [done|].
  unfold fs_writeFile. simpl.
  destruct (writeFile_error _ _ _ _); done.
Qed.

(** The branch that contacts the token endpoint. *)
Lemma listener_exchange u qs st :
  res st = fresh_response ->
  unexpected_request (Some u) = false ->
  searchParams env u (base_url port) = Some qs ->
  truthy_opt (qs_get qs (str "error")) = false ->
  qs_get qs (str "state") = Some state ->
  truthy_opt (qs_get qs (str "code")) = true ->
  let code := default [] (qs_get qs (str "code")) in
  let r := getToken env (trace st) code redirectUri in
  exists st',
    requestListener env state redirectUri port (Some u) st = (Ok tt, st')
    /\ exists more,
         trace st' = trace st ++ EvGetToken code redirectUri r :: more
         /\ match r with
            | Throw e =>
                more = [] /\ fs_untouched st st'
                /\ loginComplete st' = settle (Rejected e) (loginComplete st)
                /\ redirected_to SIGN_IN_FAILURE_URL st'
            | Ok tokens => credentials st' = tokens
            end.
Proof.
  intros Hres Hu Hq He Hs Hc code r. unfold requestListener. rewrite Hu.
  cbn [show_opt]. rewrite Hq, He, Hc.
  rewrite bool_decide_eq_true_2 by done. cbn [negb].
  fold code. subst r.
  open_state st. unfold try_finally, try_catch, mbind, M_bind, client_getToken.
  simpl. destruct (getToken env tr code redirectUri) as [tokens|e] eqn:Hg; simpl.
  - rewrite cacheCredentials_run. simpl.
    destruct (mkdir_error env _ _) as [e1|]; simpl.
    + eexists. split; [reflexivity|].
      destruct sv; simpl; eexists; (split; [|reflexivity]);
        rewrite <- app_assoc; reflexivity.
    + destruct (writeFile_error env _ _ _) as [e2|]; simpl.
      * eexists. split; [reflexivity|].
        destruct sv; simpl; eexists; (split; [|reflexivity]);
          rewrite <- !app_assoc; reflexivity.
      * eexists. split; [reflexivity|].
        destruct sv; simpl; eexists; (split; [|reflexivity]);
          rewrite <- !app_assoc; reflexivity.
  - eexists. split; [reflexivity|]. exists []. unfold fs_untouched, redirected_to.
    by destruct sv.
Qed.

(** Every request ends in one of three ways. *)
Lemma listener_cases url st :
  res st = fresh_response ->
  exists st',
    requestListener env state redirectUri port url st = (Ok tt, st')
    /\ ((exists m b, refused m b st st')
        \/ (exists code e,
              getToken env (trace st) code redirectUri = Throw e
              /\ trace st' = trace st ++ [EvGetToken code redirectUri (Throw e)]
              /\ fs_untouched st st'
              /\ loginComplete st' = settle (Rejected e) (loginComplete st)
              /\ redirected_to SIGN_IN_FAILURE_URL st')
        \/ (exists tokens, exchange_accepted env state redirectUri port st url tokens)).
Proof.
  intros Hres.
  destruct (unexpected_request url) eqn:Hu.
  { destruct (listener_unexpected url st Hres Hu)
      as (st' & ? & ?). eauto 8. }
  destruct url as [u|]; [|done].
  destruct (searchParams env u (base_url port)) as [qs|] eqn:Hq.
  2:{ destruct (listener_invalid_url u st Hres Hu Hq)
        as (st' & ? & ?). eauto 8. }
  destruct (truthy_opt (qs_get qs (str "error"))) eqn:He.
  { destruct (listener_error_param u qs st Hres Hu Hq He)
      as (st' & ? & ?). eauto 8. }
  destruct (decide (qs_get qs (str "state") = Some state)) as [Hs|Hs].
  2:{ destruct (listener_state_mismatch u qs st
                  Hres Hu Hq He Hs) as (st' & ? & ?). eauto 8. }
  destruct (truthy_opt (qs_get qs (str "code"))) eqn:Hc.
  2:{ destruct (listener_missing_code u qs st
                  Hres Hu Hq He Hs Hc) as (st' & ? & ?). eauto 8. }
  destruct (listener_exchange u qs st Hres Hu Hq He Hs Hc)
    as (st' & Hrun & more & Htr & Hr).
  exists st'. split; [done|].
  destruct (getToken env (trace st) (default [] (qs_get qs (str "code"))) redirectUri)
    as [tokens|e] eqn:Hg.
  - right. right. exists tokens, u, qs. done.
  - right. left. destruct Hr as (-> & ? & ? & ?). eauto 10.
Qed.

Lemma failure_not_accepted st url tokens :
  login_failure env state redirectUri port st url ->
  ~ exchange_accepted env state redirectUri port st url tokens.
Proof.
  intros Hf (u & qs & -> & Hu & Hq & He & Hs & Hc & Hg).
  inversion Hf; subst; try congruence.
  all: match goal with
       | H : searchParams _ _ _ = Some ?q |- _ =>
           rewrite Hq in H; injection H as <-
       end; congruence.
Qed.

End callback_receiver.

(* ===================================================================== *)
(** ** The headless code channel *)
(* ===================================================================== *)

Section headless_channel.
Import Js OAuth2 Spec.

Variable env : Env.
Variable redirectUri : list N.

(** A blank code is refused before anything else happens. *)
Lemma exchange_blank code st :
  forallb is_whitespace code = true ->
  exchangeCodeFunction env redirectUri code st
  = (Throw MSG_NO_CODE_PROVIDED,
     set_loginComplete (settle (Rejected MSG_NO_CODE_PROVIDED) (loginComplete st)) st).
Proof.
  intros Hb. unfold exchangeCodeFunction.
  rewrite (trim_blank _ Hb).
  replace (negb (truthy code) || str_eqb [] []) with true; [reflexivity|].
  unfold str_eqb. rewrite bool_decide_eq_true_2 by done. by rewrite orb_true_r.
Qed.

Lemma not_blank_test code :
  forallb is_whitespace code = false ->
  negb (truthy code) || str_eqb (trim code) [] = false.
Proof.
  intros Hb. apply orb_false_iff. split.
  - destruct code; [done|reflexivity].
  - unfold str_eqb. apply bool_decide_eq_false_2. intros E.
    apply trim_nil_blank in E. congruence.
Qed.

(** A code that is not blank goes to the token endpoint, trimmed. *)
Lemma exchange_not_blank code st :
  forallb is_whitespace code = false ->
  let r := getToken env (trace st) (trim code) redirectUri in
  let D := path_dirname env (getCachedCredentialPath env) in
  exists o st',
    exchangeCodeFunction env redirectUri code st = (o, st')
    /\ (exists s, loginComplete st' = settle s (loginComplete st))
    /\ exists more,
         trace st' = trace st ++ EvGetToken (trim code) redirectUri r :: more
         /\ match r with
            | Throw e =>
                o = Throw (str "Error exchanging authorization code: " ++ e)
                /\ more = [] /\ fs_untouched st st'
                /\ loginComplete st'
                   = settle (Rejected (str "Error exchanging authorization code: " ++ e))
                       (loginComplete st)
            | Ok tokens =>
                credentials st' = tokens
                /\ (mkdir_error env
                      (trace st ++ [EvGetToken (trim code) redirectUri r]) D = None ->
                    writeFile_error env
                      (trace st ++ [EvGetToken (trim code) redirectUri r;
                                    EvMkdir D (Ok tt)])
                      (getCachedCredentialPath env) (JSON.stringify tokens) = None ->
                    o = Ok tt
                    /\ files st'
                       = <[ getCachedCredentialPath env := JSON.stringify tokens ]>
                           (files st)
                    /\ loginComplete st' = settle Resolved (loginComplete st))
            end.
Proof.
  intros Hb r D. unfold exchangeCodeFunction. rewrite not_blank_test by done.
  subst r D. open_state st.
  unfold try_catch, mbind, M_bind, client_getToken. simpl.
  destruct (getToken env tr (trim code) redirectUri) as [tokens|e] eqn:Hg; simpl.
  - rewrite cacheCredentials_run. simpl.
    destruct (mkdir_error env _ _) as [e1|] eqn:Hm; simpl.
    + eexists _, _. split; [reflexivity|]. simpl. split; [by eexists|]. eexists.
      split; [by rewrite <- app_assoc|].
      split; [done|]. intros. congruence.
    + destruct (writeFile_error env _ _ _) as [e2|] eqn:Hw; simpl.
      * eexists _, _. split; [reflexivity|]. simpl. split; [by eexists|]. eexists.
        split; [by rewrite <- !app_assoc|]. split; [done|].
        intros _ Hw'. rewrite <- app_assoc in Hw. simpl in Hw. congruence.
      * eexists _, _. split; [reflexivity|]. simpl. split; [by eexists|]. eexists.
        split; [by rewrite <- !app_assoc|]. done.
  - eexists _, _. split; [reflexivity|]. split; [by eexists|]. exists []. done.
Qed.

(** The earlier callback tests the code before trimming it: a code of
    spaces goes to the token endpoint as the empty code. *)
Remark legacy_callback_sends_blank_code code st :
  code <> [] ->
  forallb is_whitespace code = true ->
  exists more,
    trace (Legacy.questionCallback env redirectUri code st).2
    = trace st
      ++ EvGetToken [] redirectUri (getToken env (trace st) [] redirectUri) :: more.
Proof.
  intros Hne Hb. unfold Legacy.questionCallback.
  destruct code as [|c code]; [done|]. cbn [truthy negb].
  rewrite (trim_blank _ Hb).
  open_state st. unfold try_catch, mbind, M_bind, client_getToken. simpl.
  destruct (getToken env tr [] redirectUri) as [tokens|e]; simpl.
  - rewrite cacheCredentials_run. simpl.
    destruct (mkdir_error env _ _); simpl;
      [eexists; by rewrite <- ?app_assoc|].
    destruct (writeFile_error env _ _ _); simpl;
      eexists; by rewrite <- ?app_assoc.
  - by exists [].
Qed.

End headless_channel.

(* ===================================================================== *)
(** ** The credential cache *)
(* ===================================================================== *)

Section credential_cache.
Import Js OAuth2 Spec.

Variable env : Env.

Ltac load_fails :=
  split; [done|];
  split; [split; [done|intros (?&?&?&?&?&?&?&?); simplify_eq; congruence]|];
  split; [eexists; rewrite <- ?app_assoc; reflexivity|];
  intros; simplify_eq; done.

(** The run of [loadCachedCredentials]: it never throws, it leaves the
    file system alone, and it answers [true] exactly when every step
    succeeds. *)
Lemma load_run st :
  exists b st',
    loadCachedCredentials env st = (Ok b, st')
    /\ fs_untouched st st'
    /\ (b = true <-> hydrates env st)
    /\ (exists more,
          trace st' = trace st
                      ++ EvReadFile (keyFile env) (read_outcome env st (keyFile env))
                         :: more)
    /\ (forall content parsed,
          read_outcome env st (keyFile env) = Ok content ->
          JSON.parse content = Some parsed ->
          credentials st'
          = refreshedCredentials env
              (trace st ++ [EvReadFile (keyFile env) (Ok content)]) parsed).
Proof.
  unfold loadCachedCredentials, hydrates.
  unfold try_catch, mbind, M_bind, fs_readFile.
  fold (read_outcome env st (keyFile env)).
  destruct (read_outcome env st (keyFile env)) as [content|e] eqn:Hr.
  2:{ eexists _, _. split; [reflexivity|]. simpl. load_fails. }
  unfold JSON_parse.
  destruct (JSON.parse content) as [parsed|] eqn:Hp.
  2:{ eexists _, _. split; [reflexivity|]. simpl. load_fails. }
  unfold mret, M_ret, setCredentials, modify, client_getAccessToken. simpl.
  destruct (getAccessToken env _ parsed) as [[tok|]|e] eqn:Ha; simpl.
  - destruct tok as [|c tok]; simpl.
    + eexists _, _. split; [reflexivity|]. simpl. load_fails.
    + unfold client_getTokenInfo. simpl.
      rewrite <- app_assoc. simpl.
      destruct (getTokenInfo env _ (c :: tok)) as [[]|e] eqn:Hi; simpl.
      * eexists _, _. split; [reflexivity|]. simpl.
        split; [done|]. split; [|split].
        -- split; [|done]. intros _. exists content, parsed, (c :: tok). done.
        -- eexists. rewrite <- !app_assoc. reflexivity.
        -- intros; simplify_eq; done.
      * eexists _, _. split; [reflexivity|]. simpl. load_fails.
  - eexists _, _. split; [reflexivity|]. simpl. load_fails.
  - eexists _, _. split; [reflexivity|]. simpl. load_fails.
Qed.

(** A save that succeeds made the directory and replaced the file. *)
Lemma cacheCredentials_ok creds st st1 :
  cacheCredentials env creds st = (Ok tt, st1) ->
  let P := getCachedCredentialPath env in
  let D := path_dirname env P in
  files st1 = <[ P := JSON.stringify creds ]> (files st)
  /\ dirs st1 = {[ D ]} ∪ dirs st
  /\ trace st1 = trace st ++ [EvMkdir D (Ok tt);
                              EvWriteFile P (JSON.stringify creds) (Ok tt)]
  /\ credentials st1 = credentials st
  /\ loginComplete st1 = loginComplete st.
Proof.
  rewrite cacheCredentials_run. intros H P D.
  destruct (mkdir_error env _ _); [done|]. simpl in H.
  destruct (writeFile_error env _ _ _); [done|].
  injection H as <-. simpl. rewrite <- app_assoc. done.
Qed.

(** Whatever happens, a save writes no file but the fixed one. *)
Lemma cacheCredentials_target creds st :
  let st' := (cacheCredentials env creds st).2 in
  forall p c r, EvWriteFile p c r ∈ new_events st st' ->
    p = getCachedCredentialPath env /\ c = JSON.stringify creds.
Proof.
  intros st' p c r. subst st'. rewrite cacheCredentials_run.
  destruct (mkdir_error env _ _) eqn:Hm; simpl.
  - rewrite (new_events_app _ _ [EvMkdir _ _]) by reflexivity.
    intros ?%list_elem_of_singleton. done.
  - destruct (writeFile_error env _ _ _); simpl.
    + rewrite (new_events_app _ _ [EvMkdir _ _; EvWriteFile _ _ _])
        by (simpl; by rewrite <- app_assoc).
      intros [?|?%list_elem_of_singleton]%elem_of_cons; [done|]. by simplify_eq.
    + rewrite (new_events_app _ _ [EvMkdir _ _; EvWriteFile _ _ _])
        by (simpl; by rewrite <- app_assoc).
      intros [?|?%list_elem_of_singleton]%elem_of_cons; [done|]. by simplify_eq.
Qed.

End credential_cache.

(* ===================================================================== *)
(** ** Properties of the login flow *)
(* ===================================================================== *)

(** Each property below is stated for every world [env] and every state
    the process can be in. *)

Section receiver_properties.

Import Js OAuth2 Spec.

Lemma indexOf_from_found t s i :
  indexOf_from t s i <> (-1)%Z -> contains s t.
Proof.
  revert i. induction s as [|d s IH]; intros i; simpl.
  - destruct (startsWith t []) eqn:E; [|done].
    apply startsWith_spec in E as [post E]. intros _. by exists [], post.
  - destruct (startsWith t (d :: s)) eqn:E.
    + apply startsWith_spec in E as [post E]. intros _. by exists [], post.
    + intros H. destruct (IH _ H) as (pre & post & ->). by exists (d :: pre), post.
Qed.

Lemma refused_summary m b st st' :
  refused m b st st' ->
  loginComplete st' = settle (Rejected m) (loginComplete st)
  /\ redirected_to SIGN_IN_FAILURE_URL st'
  /\ new_events st st' = []
  /\ fs_untouched st st'.
Proof.
  intros Hr. pose proof (refused_redirected _ _ _ _ Hr).
  destruct Hr as (? & ? & ? & ? & ?).
  split; [done|]. split; [done|]. split; [by apply new_events_same|done].
Qed.

(** C4. For every code that is empty or made of whitespace only, the
    headless [exchangeCodeFunction] rejects the shared completion signal
    with "No authorization code provided.", throws that error, and makes
    no call at all: the token endpoint is not contacted and the file
    system is as before. *)
Theorem exchangeCode_blank_code_rejected env redirectUri code st :
  forallb is_whitespace code = true ->
  exists st',
    exchangeCodeFunction env redirectUri code st
      = (Throw (str "No authorization code provided."), st')
    /\ loginComplete st'
       = settle (Rejected (str "No authorization code provided."))
           (loginComplete st)
    /\ new_events st st' = []
    /\ fs_untouched st st'
    /\ credentials st' = credentials st.
Proof.
  intros Hb. rewrite exchange_blank by done.
  eexists. split; [reflexivity|]. simpl.
  split; [done|]. split; [|done]. by apply new_events_same.
Qed.

(** C10. The listener looks at the [error] parameter before it looks at
    [state]: a request that passes the path test and carries a non-empty
    [error] fails the attempt with "Error during authentication: <error>"
    and the failure redirect, whatever its [state] parameter is. *)
Theorem error_param_checked_before_state env state redirectUri port u qs e st :
  res st = fresh_response ->
  unexpected_request (Some u) = false ->
  searchParams env u (base_url port) = Some qs ->
  qs_get qs (str "error") = Some e ->
  e <> [] ->
  exists st',
    requestListener env state redirectUri port (Some u) st = (Ok tt, st')
    /\ loginComplete st'
       = settle (Rejected (str "Error during authentication: " ++ e))
           (loginComplete st)
    /\ redirected_to SIGN_IN_FAILURE_URL st'
    /\ new_events st st' = []
    /\ fs_untouched st st'.
Proof.
  intros Hres Hu Hq He Hne.
  destruct (listener_error_param env state redirectUri port u qs st Hres Hu Hq)
    as (st' & Hrun & Hr).
  { rewrite He. by destruct e. }
  exists st'. split; [done|]. rewrite He in Hr. cbn [show_opt] in Hr.
  by apply (refused_summary _ []).
Qed.

(** C1, as the code has it.  A request that passes the path test and
    whose [state] parameter differs from the nonce of the attempt never
    reaches the token endpoint, for any [code]: no call is made, the
    file system is as before, the failure redirect is sent and the
    attempt fails.  The error is the state-mismatch error when the
    request has no non-empty [error] parameter, and
    "Error during authentication: <error>" when it has one. *)
Theorem state_mismatch_never_exchanges env state redirectUri port u qs st :
  res st = fresh_response ->
  unexpected_request (Some u) = false ->
  searchParams env u (base_url port) = Some qs ->
  qs_get qs (str "state") <> Some state ->
  exists st',
    requestListener env state redirectUri port (Some u) st = (Ok tt, st')
    /\ loginComplete st'
       = settle
           (Rejected
              (if truthy_opt (qs_get qs (str "error"))
               then str "Error during authentication: "
                    ++ show_opt (qs_get qs (str "error"))
               else str "State mismatch. Possible CSRF attack."))
           (loginComplete st)
    /\ redirected_to SIGN_IN_FAILURE_URL st'
    /\ new_events st st' = []
    /\ fs_untouched st st'.
Proof.
  intros Hres Hu Hq Hs.
  destruct (truthy_opt (qs_get qs (str "error"))) eqn:He.
  - destruct (listener_error_param env state redirectUri port u qs st Hres Hu Hq He)
      as (st' & Hrun & Hr).
    exists st'. split; [done|]. by eapply refused_summary.
  - destruct (listener_state_mismatch env state redirectUri port u qs st
                Hres Hu Hq He Hs) as (st' & Hrun & Hr).
    exists st'. split; [done|]. by eapply refused_summary.
Qed.

(** C5, as the code has it.  The path test is a substring test on the
    whole request target.  A request whose target is missing, empty or
    without an occurrence of [/oauth2callback] gets the failure redirect
    and fails the attempt with "Unexpected request: <url>"; a request
    goes on to further processing exactly when [/oauth2callback] occurs
    somewhere in its target. *)
Theorem request_without_callback_path_rejected env state redirectUri port url st :
  res st = fresh_response ->
  (unexpected_request url = true ->
   exists st',
     requestListener env state redirectUri port url st = (Ok tt, st')
     /\ loginComplete st'
        = settle (Rejected (str "Unexpected request: " ++ show_opt url))
            (loginComplete st)
     /\ redirected_to SIGN_IN_FAILURE_URL st'
     /\ new_events st st' = []
     /\ fs_untouched st st')
  /\ (unexpected_request url = false
      <-> exists u, url = Some u /\ contains u (str "/oauth2callback")).
Proof.
  intros Hres. split.
  - intros Hu.
    destruct (listener_unexpected env state redirectUri port url st Hres Hu)
      as (st' & Hrun & Hr).
    exists st'. split; [done|]. by eapply refused_summary.
  - unfold unexpected_request. destruct url as [u|].
    + rewrite orb_false_iff, negb_false_iff, Z.eqb_neq.
      split.
      * intros [_ Hi]. exists u. split; [done|].
        by apply (indexOf_from_found _ _ 0%Z).
      * intros (u' & [= <-] & Hc). split.
        -- destruct Hc as (pre & post & ->). by destruct pre.
        -- intros Hi. by apply indexOf_none in Hi.
    + split; [done|]. by intros (? & ? & _).
Qed.

End receiver_properties.

Section attempt_properties.

Import Js OAuth2 Spec.

(** C3. No failing outcome of a login attempt touches the credential
    cache.  A listener that cannot be bound, and a request that is
    unexpected, unparsable, carries the provider's [error], carries a
    wrong [state], carries no [code], or whose code the token endpoint
    rejects, leave files and directories as they were and make no call of
    [fs.mkdir] or [fs.writeFile]; so does the headless channel for a blank
    or a rejected code.  A request triggers such a call only when the
    token endpoint has accepted its code. *)
Theorem failed_login_leaves_cache_untouched env state redirectUri port st :
  res st = fresh_response ->
  (forall message,
     let st' := (serverErrorListener message st).2 in
     fs_untouched st st' /\ new_events st st' = []
     /\ loginComplete st'
        = settle (Rejected (str "HTTP server error: " ++ message)) (loginComplete st))
  /\ (forall url,
        login_failure env state redirectUri port st url ->
        let st' := (requestListener env state redirectUri port url st).2 in
        fs_untouched st st'
        /\ Forall (fun ev => is_fs_write ev = false) (new_events st st')
        /\ exists message,
             loginComplete st' = settle (Rejected message) (loginComplete st))
  /\ (forall url,
        let st' := (requestListener env state redirectUri port url st).2 in
        Exists (fun ev => is_fs_write ev = true) (new_events st st') ->
        exists tokens, exchange_accepted env state redirectUri port st url tokens)
  /\ (forall code,
        forallb is_whitespace code = true
        \/ (exists e, getToken env (trace st) (trim code) redirectUri = Throw e) ->
        let st' := (exchangeCodeFunction env redirectUri code st).2 in
        fs_untouched st st'
        /\ Forall (fun ev => is_fs_write ev = false) (new_events st st')).
Proof.
  intros Hres. split; [|split; [|split]].
  - intros message st'. subst st'. unfold serverErrorListener. run_m.
    unfold fs_untouched. rewrite new_events_same; destruct (server st); done.
  - intros url Hf st'. subst st'.
    destruct (listener_cases env state redirectUri port url st Hres)
      as (st' & -> & [(m & b & Hr)|[(code & e & Hg & Ht & Hfs & Hl & _)|(tokens & Ha)]]).
    + simpl. destruct (refused_summary _ _ _ _ Hr) as (? & _ & -> & ?).
      split; [done|]. split; [constructor|eauto].
    + simpl. rewrite (new_events_app _ _ _ Ht).
      split; [done|]. split; [by repeat constructor|eauto].
    + by apply failure_not_accepted with (tokens := tokens) in Hf.
  - intros url st'. subst st'.
    destruct (listener_cases env state redirectUri port url st Hres)
      as (st' & -> & [(m & b & Hr)|[(code & e & Hg & Ht & Hfs & Hl & _)|(tokens & Ha)]]).
    + simpl. destruct (refused_summary _ _ _ _ Hr) as (? & _ & -> & ?).
      by intros ?%Exists_nil.
    + simpl. rewrite (new_events_app _ _ _ Ht).
      intros [?|?%Exists_nil]%Exists_cons; done.
    + eauto.
  - intros code Hc st'. subst st'.
    destruct (forallb is_whitespace code) eqn:Hb.
    + rewrite exchange_blank by done. simpl.
      rewrite new_events_same by done. split; [done|constructor].
    + destruct Hc as [?|(e & Hg)]; [done|].
      destruct (exchange_not_blank env redirectUri code st Hb)
        as (o & st' & -> & _ & more & Ht & Hr).
      rewrite Hg in Hr, Ht. destruct Hr as (_ & -> & ? & _). simpl.
      rewrite (new_events_app _ _ _ Ht). split; [done|by repeat constructor].
Qed.

(** C6, as the code has it.  After [exchangeCodeFunction] has resolved
    the completion signal, a further invocation leaves the signal
    resolved, but it is not a no-op: a blank code throws without any
    call, any other code is sent, trimmed, to the token endpoint again,
    and when that exchange and the write succeed the credential cache is
    overwritten with the new tokens. *)
Theorem exchangeCode_after_success env redirectUri code st :
  loginComplete st = Resolved ->
  exists o st',
    exchangeCodeFunction env redirectUri code st = (o, st')
    /\ loginComplete st' = Resolved
    /\ (forallb is_whitespace code = true ->
        o = Throw (str "No authorization code provided.")
        /\ new_events st st' = [] /\ fs_untouched st st')
    /\ (forallb is_whitespace code = false ->
        let r := getToken env (trace st) (trim code) redirectUri in
        let D := path_dirname env (getCachedCredentialPath env) in
        (exists more,
           new_events st st' = EvGetToken (trim code) redirectUri r :: more)
        /\ forall tokens,
             r = Ok tokens ->
             mkdir_error env (trace st ++ [EvGetToken (trim code) redirectUri r]) D
               = None ->
             writeFile_error env
               (trace st ++ [EvGetToken (trim code) redirectUri r; EvMkdir D (Ok tt)])
               (getCachedCredentialPath env) (JSON.stringify tokens) = None ->
             o = Ok tt
             /\ credentials st' = tokens
             /\ files st'
                = <[ getCachedCredentialPath env := JSON.stringify tokens ]> (files st)).
Proof.
  intros Hl. destruct (forallb is_whitespace code) eqn:Hb.
  - rewrite exchange_blank by done. eexists _, _. split; [reflexivity|].
    simpl. rewrite Hl. split; [done|]. split; [|done].
    intros _. split; [done|]. split; [by apply new_events_same|done].
  - destruct (exchange_not_blank env redirectUri code st Hb)
      as (o & st' & Hrun & (s & Hs) & more & Ht & Hr).
    exists o, st'. split; [done|]. split; [|split; [done|]].
    + by rewrite Hs, Hl.
    + intros _ r D. split.
      * exists more. by apply new_events_app.
      * intros tokens Hg Hm Hw. subst r. rewrite Hg in Hr, Hm, Hw.
        destruct Hr as (Hc & Hok). destruct (Hok Hm Hw) as (? & ? & ?). done.
Qed.

End attempt_properties.

Section cache_properties.

Import Js OAuth2 Spec.



(** C9. The save always writes the fixed per-user file, whatever the
    environment variable [GOOGLE_APPLICATION_CREDENTIALS] holds, while
    the load reads the file that the variable names.  When the variable
    names another path, the save leaves that file as it was, and the next
    load reads it: what it reads is the content from before the save,
    not the credentials just saved. *)
Theorem save_ignores_credentials_override env p creds st st1 :
  let env' := with_override (Some p) env in
  p <> [] ->
  p <> getCachedCredentialPath env ->
  cacheCredentials env' creds st = (Ok tt, st1) ->
  getCachedCredentialPath env'
    = path_join env [homedir env; str ".gemini"; str "oauth_creds.json"]
  /\ cacheCredentials env' creds st = cacheCredentials env creds st
  /\ (forall q c r,
        EvWriteFile q c r ∈ new_events st st1 ->
        q = getCachedCredentialPath env)
  /\ files st1 = <[ getCachedCredentialPath env := JSON.stringify creds ]> (files st)
  /\ keyFile env' = p
  /\ files st1 !! p = files st !! p
  /\ exists b st2 more,
       loadCachedCredentials env' st1 = (Ok b, st2)
       /\ trace st2 = trace st1 ++ EvReadFile p (read_outcome env' st1 p) :: more
       /\ forall content,
            read_outcome env' st1 p = Ok content -> files st !! p = Some content.
Proof.
  intros env' Hne Hp Hsave.
  split; [reflexivity|]. split; [reflexivity|].
  destruct (cacheCredentials_ok env' creds st st1 Hsave) as (Hf & _).
  change (getCachedCredentialPath env') with (getCachedCredentialPath env) in Hf.
  assert (Hkey : keyFile env' = p).
  { unfold keyFile. simpl. by destruct p. }
  assert (Hsame : files st1 !! p = files st !! p).
  { rewrite Hf. by apply lookup_insert_ne. }
  split.
  { intros q c r Hin.
    pose proof (cacheCredentials_target env' creds st q c r) as Ht.
    rewrite Hsave in Ht. by apply Ht. }
  split; [done|]. split; [done|]. split; [done|].
  destruct (load_run env' st1) as (b & st2 & Hrun & _ & _ & (more & Ht) & _).
  rewrite Hkey in Ht.
  exists b, st2, more. split; [done|]. split; [done|].
  intros content. unfold read_outcome. rewrite Hsame.
  destruct (readFile_error env' _ _); [done|].
  destruct (files st !! p); [|done]. by intros [= ->].
Qed.


End cache_properties.

(* ===================================================================== *)
(** ** The properties on the concrete world *)
(* ===================================================================== *)

Section scenarios.

Import Js OAuth2 Spec.


(** Three spaces are refused by the headless channel. *)
Lemma exchangeCode_blank_code_rejected_witness :
  exists st',
    exchangeCodeFunction Sample.headless OOB_REDIRECT_URI (str "   ") Sample.init
      = (Throw (str "No authorization code provided."), st')
    /\ loginComplete st'
       = settle (Rejected (str "No authorization code provided."))
           (loginComplete Sample.init)
    /\ new_events Sample.init st' = []
    /\ fs_untouched Sample.init st'
    /\ credentials st' = credentials Sample.init.
Proof.
  apply (exchangeCode_blank_code_rejected Sample.headless OOB_REDIRECT_URI
           (str "   ") Sample.init).
  vm_compute. reflexivity.
Defined.

(** A request with an [error] and a forged [state]. *)
Lemma error_param_checked_before_state_witness :
  exists st',
    requestListener Sample.interactive Sample.nonce Sample.LOOPBACK 8081
      (Some (str "/oauth2callback?error=access_denied&state=forged")) Sample.init
      = (Ok tt, st')
    /\ loginComplete st'
       = settle (Rejected (str "Error during authentication: " ++ str "access_denied"))
           (loginComplete Sample.init)
    /\ redirected_to SIGN_IN_FAILURE_URL st'
    /\ new_events Sample.init st' = []
    /\ fs_untouched Sample.init st'.
Proof.
  apply (error_param_checked_before_state Sample.interactive Sample.nonce Sample.LOOPBACK
           8081 (str "/oauth2callback?error=access_denied&state=forged")
           [(str "error", str "access_denied"); (str "state", str "forged")]
           (str "access_denied") Sample.init).
  - reflexivity.
  - vm_compute. reflexivity.
  - vm_compute. reflexivity.
  - vm_compute. reflexivity.
  - vm_compute. discriminate.
Defined.

(** C1 as stated fails: the request below has a [state] that differs
    from the nonce, and the Sample.attempt does not fail with the
    state-mismatch error but with the provider's error. *)
Lemma state_mismatch_masked_by_error_param :
  let url := str "/oauth2callback?error=access_denied&state=forged" in
  let st' := (handle_request Sample.interactive (Some url) Sample.attempt).2 in
  srv_state <$> server Sample.attempt = Some Sample.nonce
  /\ (Sample.search_params url (base_url 8081) ≫= fun qs => qs_get qs (str "state"))
     = Some (str "forged")
  /\ str "forged" <> Sample.nonce
  /\ loginComplete Sample.attempt = Pending
  /\ loginComplete st' = Rejected (str "Error during authentication: access_denied")
  /\ loginComplete st' <> Rejected (str "State mismatch. Possible CSRF attack.").
Proof. vm_compute. repeat split; discriminate. Qed.

Lemma state_mismatch_never_exchanges_witness :
  exists st',
    requestListener Sample.interactive Sample.nonce Sample.LOOPBACK 8081
      (Some (str "/oauth2callback?code=ABC&state=forged")) Sample.init
      = (Ok tt, st')
    /\ loginComplete st'
       = settle (Rejected (str "State mismatch. Possible CSRF attack."))
           (loginComplete Sample.init)
    /\ redirected_to SIGN_IN_FAILURE_URL st'
    /\ new_events Sample.init st' = []
    /\ fs_untouched Sample.init st'.
Proof.
  apply (state_mismatch_never_exchanges Sample.interactive Sample.nonce Sample.LOOPBACK
           8081 (str "/oauth2callback?code=ABC&state=forged")
           [(str "code", str "ABC"); (str "state", str "forged")] Sample.init).
  - reflexivity.
  - vm_compute. reflexivity.
  - vm_compute. reflexivity.
  - vm_compute. discriminate.
Defined.

(** C5 as stated fails: the path of the request below is [/evil], not
    the callback path, yet the request is processed, its code is
    exchanged, the cache is written and the login resolves. *)
Lemma callback_path_not_exact :
  let url := str "/evil?next=/oauth2callback&code=ABC&state=" ++ Sample.nonce in
  let st' := (handle_request Sample.interactive (Some url) Sample.attempt).2 in
  path_of url = str "/evil"
  /\ path_of url <> str "/oauth2callback"
  /\ unexpected_request (Some url) = false
  /\ loginComplete st' = Resolved
  /\ resHead (res st') = Some (301, SIGN_IN_SUCCESS_URL)
  /\ new_events Sample.attempt st'
     = [EvGetToken (str "ABC") Sample.LOOPBACK (Ok (Sample.tokens_of "ya29.first"));
        EvMkdir (str "/home/user/.gemini") (Ok tt);
        EvWriteFile (str "/home/user/.gemini/oauth_creds.json")
          (JSON.stringify (Sample.tokens_of "ya29.first")) (Ok tt)]
  /\ files st' !! str "/home/user/.gemini/oauth_creds.json"
     = Some (JSON.stringify (Sample.tokens_of "ya29.first")).
Proof. vm_compute. repeat split; discriminate. Qed.

Lemma request_without_callback_path_rejected_witness :
  (exists st',
     requestListener Sample.interactive Sample.nonce Sample.LOOPBACK 8081
       (Some (str "/favicon.ico")) Sample.init = (Ok tt, st')
     /\ loginComplete st'
        = settle (Rejected (str "Unexpected request: " ++ str "/favicon.ico"))
            (loginComplete Sample.init)
     /\ redirected_to SIGN_IN_FAILURE_URL st'
     /\ new_events Sample.init st' = []
     /\ fs_untouched Sample.init st').
Proof.
  apply (request_without_callback_path_rejected Sample.interactive Sample.nonce
           Sample.LOOPBACK 8081 (Some (str "/favicon.ico")) Sample.init).
  - reflexivity.
  - vm_compute. reflexivity.
Defined.


(** A request with a forged [state] is one of the failures, and leaves the
    file system alone. *)
Lemma failed_login_leaves_cache_untouched_witness :
  let url := Some (str "/oauth2callback?code=ABC&state=forged") in
  let st' := (requestListener Sample.interactive Sample.nonce Sample.LOOPBACK 8081
                url Sample.attempt).2 in
  fs_untouched Sample.attempt st'
  /\ Forall (fun ev => is_fs_write ev = false) (new_events Sample.attempt st')
  /\ exists message,
       loginComplete st' = settle (Rejected message) (loginComplete Sample.attempt).
Proof.
  intros url st'.
  destruct (failed_login_leaves_cache_untouched Sample.interactive Sample.nonce
              Sample.LOOPBACK 8081 Sample.attempt) as (_ & Hreq & _).
  - reflexivity.
  - apply (Hreq url).
    apply (state_mismatch _ _ _ _ _ _
             [(str "code", str "ABC"); (str "state", str "forged")]).
    + vm_compute. reflexivity.
    + vm_compute. discriminate.
Defined.

(** C6 as stated fails: after the exchange of [ABC] has resolved the
    login, the exchange of [DEF] is neither an error nor a no-op; the
    token endpoint is contacted again and the cache file is replaced. *)
Lemma exchangeCode_twice_overwrites_cache :
  let again := Sample.headless_exchange (str "DEF") Sample.signed_in in
  loginComplete Sample.signed_in = Resolved
  /\ files Sample.signed_in !! Sample.CACHE_FILE
     = Some (JSON.stringify (Sample.tokens_of "ya29.first"))
  /\ again.1 = Ok tt
  /\ new_events Sample.signed_in again.2
     = [EvGetToken (str "DEF") OOB_REDIRECT_URI (Ok (Sample.tokens_of "ya29.second"));
        EvMkdir (str "/home/user/.gemini") (Ok tt);
        EvWriteFile Sample.CACHE_FILE
          (JSON.stringify (Sample.tokens_of "ya29.second")) (Ok tt)]
  /\ files again.2 !! Sample.CACHE_FILE
     = Some (JSON.stringify (Sample.tokens_of "ya29.second"))
  /\ files again.2 !! Sample.CACHE_FILE <> files Sample.signed_in !! Sample.CACHE_FILE
  /\ credentials again.2 <> credentials Sample.signed_in.
Proof. vm_compute. repeat split; discriminate. Qed.

Lemma exchangeCode_after_success_witness :
  exists o st',
    exchangeCodeFunction Sample.headless OOB_REDIRECT_URI (str " DEF ")
      Sample.signed_in = (o, st')
    /\ loginComplete st' = Resolved
    /\ o = Ok tt
    /\ credentials st' = Sample.tokens_of "ya29.second"
    /\ files st'
       = <[ Sample.CACHE_FILE := JSON.stringify (Sample.tokens_of "ya29.second") ]>
           (files Sample.signed_in).
Proof.
  destruct (exchangeCode_after_success Sample.headless OOB_REDIRECT_URI
              (str " DEF ") Sample.signed_in)
    as (o & st' & Hrun & Hl & _ & Hnb).
  - vm_compute. reflexivity.
  - exists o, st'. split; [exact Hrun|]. split; [exact Hl|].
    destruct Hnb as (_ & Hok).
    + vm_compute. reflexivity.
    + apply (Hok (Sample.tokens_of "ya29.second")).
      * vm_compute. reflexivity.
      * reflexivity.
      * reflexivity.
Defined.


Lemma wf_string_str s : JSON.wf_string (str s).
Proof.
  unfold JSON.wf_string, str. apply Forall_forall.
  intros c [a [<- _]]%list_elem_of_In%in_map_iff.
  pose proof (N_ascii_bounded a). lia.
Qed.

Lemma tokens_wf access : JSON.wf (Sample.tokens_of access).
Proof.
  apply wf_obj. split.
  - apply (bool_decide_unpack _). vm_compute. exact I.
  - repeat constructor; simpl; try apply wf_string_str.
    all: unfold JSON.safe_integer; lia.
Qed.



Lemma save_ignores_credentials_override_witness :
  let creds := Sample.tokens_of "ya29.first" in
  let st1 := (cacheCredentials Sample.overridden creds Sample.init).2 in
  files st1 !! Sample.CACHE_FILE = Some (JSON.stringify creds)
  /\ keyFile Sample.overridden = Sample.KEY_FILE
  /\ files st1 !! Sample.KEY_FILE = None
  /\ exists b st2 more,
       loadCachedCredentials Sample.overridden st1 = (Ok b, st2)
       /\ trace st2
          = trace st1
            ++ EvReadFile Sample.KEY_FILE (read_outcome Sample.overridden st1 Sample.KEY_FILE)
               :: more.
Proof.
  intros creds st1.
  destruct (save_ignores_credentials_override Sample.interactive Sample.KEY_FILE
              creds Sample.init st1)
    as (_ & _ & _ & Hf & Hk & Hsame & b & st2 & more & Hrun & Ht & _).
  - vm_compute. discriminate.
  - vm_compute. discriminate.
  - vm_compute. reflexivity.
  - split; [rewrite Hf; apply lookup_insert_eq|].
    split; [exact Hk|]. split; [rewrite Hsame; reflexivity|].
    exists b, st2, more. split; [exact Hrun|exact Ht].
Defined.

End scenarios.

(** Replace [new_events] by the events that the final trace adds. *)
Ltac events :=
  erewrite new_events_app
    by (simpl; rewrite <- ?app_assoc; simpl; reflexivity).

(* ===================================================================== *)
(** ** Further properties: the callback receiver *)
(* ===================================================================== *)

Section receiver_more.

Import Js OAuth2 Spec.

Ltac listener_leaf lc sv :=
  eexists; split; [reflexivity|];
  destruct sv, lc; simpl; split_all; eauto; try done;
  try (intros _; split; discriminate).

(** X1. Whatever the request, the listener answers it and shuts the
    server: it does not throw, the response is ended with a 301 redirect
    to the success page or to the failure page, the server is closed, and
    the login promise is settled afterwards (a promise that was settled
    before keeps its settlement).  For a pending promise the success page
    is sent exactly when the promise is resolved, and then the cache file
    holds the credentials that are on the client. *)
Theorem listener_always_answers_and_closes env state redirectUri port url st :
  res st = fresh_response ->
  exists st',
    requestListener env state redirectUri port url st = (Ok tt, st')
    /\ server st' = closed_server <$> server st
    /\ resEnded (res st') = true
    /\ (resHead (res st') = Some (301, SIGN_IN_SUCCESS_URL)
        \/ resHead (res st') = Some (301, SIGN_IN_FAILURE_URL))
    /\ loginComplete st' <> Pending
    /\ (loginComplete st <> Pending -> loginComplete st' = loginComplete st)
    /\ (loginComplete st = Pending ->
        (loginComplete st' = Resolved
         <-> resHead (res st') = Some (301, SIGN_IN_SUCCESS_URL)))
    /\ (resHead (res st') = Some (301, SIGN_IN_SUCCESS_URL) ->
        files st' !! getCachedCredentialPath env
        = Some (JSON.stringify (credentials st'))).
Proof.
  intros Hres. unfold requestListener.
  destruct (unexpected_request url) eqn:Hu.
  { open_state st. run_m. listener_leaf lc sv. }
  destruct url as [u|]; [|done]. cbn [show_opt].
  destruct (searchParams env u (base_url port)) as [qs|] eqn:Hq.
  2:{ open_state st. run_m. listener_leaf lc sv. }
  destruct (truthy_opt (qs_get qs (str "error"))) eqn:He.
  { open_state st. run_m. listener_leaf lc sv. }
  destruct (bool_decide (qs_get qs (str "state") = Some state)) eqn:Hs; cbn [negb].
  2:{ open_state st. run_m. listener_leaf lc sv. }
  destruct (truthy_opt (qs_get qs (str "code"))) eqn:Hc.
  2:{ open_state st. run_m. listener_leaf lc sv. }
  open_state st. unfold try_finally, try_catch, mbind, M_bind, client_getToken.
  simpl. destruct (getToken env tr _ redirectUri) as [tokens|e] eqn:Hg; simpl.
  - rewrite cacheCredentials_run. simpl.
    destruct (mkdir_error env _ _) as [e1|]; simpl.
    + listener_leaf lc sv.
    + destruct (writeFile_error env _ _ _) as [e2|]; simpl.
      * listener_leaf lc sv.
      * eexists; split; [reflexivity|].
        destruct sv, lc; simpl; split_all; eauto; try done;
          try (intros _; apply lookup_insert_eq).
  - listener_leaf lc sv.
Qed.

(** X2. A callback with the nonce of the attempt, no [error] and a
    non-empty [code] exchanges exactly that code with the redirect URI of
    the attempt; when the exchange and the write succeed, the tokens are
    on the client, the cache file holds their serialisation, the success
    redirect is sent and the promise is resolved.  The calls made are the
    exchange, [fs.mkdir] and [fs.writeFile], in this order. *)
Theorem callback_with_nonce_and_code_logs_in
    env state redirectUri port u qs code tokens st :
  let P := getCachedCredentialPath env in
  let D := path_dirname env P in
  let exchanged := EvGetToken code redirectUri (Ok tokens) in
  res st = fresh_response ->
  unexpected_request (Some u) = false ->
  searchParams env u (base_url port) = Some qs ->
  truthy_opt (qs_get qs (str "error")) = false ->
  qs_get qs (str "state") = Some state ->
  qs_get qs (str "code") = Some code ->
  code <> [] ->
  getToken env (trace st) code redirectUri = Ok tokens ->
  mkdir_error env (trace st ++ [exchanged]) D = None ->
  writeFile_error env (trace st ++ [exchanged; EvMkdir D (Ok tt)]) P
    (JSON.stringify tokens) = None ->
  exists st',
    requestListener env state redirectUri port (Some u) st = (Ok tt, st')
    /\ credentials st' = tokens
    /\ files st' = <[ P := JSON.stringify tokens ]> (files st)
    /\ dirs st' = {[ D ]} ∪ dirs st
    /\ loginComplete st' = settle Resolved (loginComplete st)
    /\ res st' = mkResponse (Some (301, SIGN_IN_SUCCESS_URL)) [] true
    /\ new_events st st'
       = [exchanged; EvMkdir D (Ok tt);
          EvWriteFile P (JSON.stringify tokens) (Ok tt)].
Proof.
  intros P D exchanged Hres Hu Hq He Hs Hc Hne Hg Hm Hw.
  subst P D exchanged. unfold requestListener. rewrite Hu.
  cbn [show_opt]. rewrite Hq, He, Hc.
  rewrite bool_decide_eq_true_2 by done. cbn [negb].
  destruct code as [|c code]; [done|]. cbn [truthy_opt truthy default].
  open_state st. unfold try_finally, try_catch, mbind, M_bind, client_getToken.
  simpl. rewrite Hg. simpl. rewrite cacheCredentials_run. simpl.
  rewrite Hm. simpl. rewrite <- app_assoc. simpl. rewrite Hw. simpl.
  eexists. split; [reflexivity|].
  destruct sv; simpl; split_all; try done;
    apply new_events_app; simpl; by rewrite <- !app_assoc.
Qed.

(** X3. When the token endpoint accepts the code but the cache cannot be
    written ([fs.mkdir] or [fs.writeFile] fails), the attempt is rejected
    with the error of the file system as it is, the failure redirect is
    sent, and the tokens stay on the client although they are not
    cached. *)
Theorem callback_cache_failure_keeps_tokens_on_client
    env state redirectUri port u qs code tokens e st :
  let P := getCachedCredentialPath env in
  let D := path_dirname env P in
  let exchanged := EvGetToken code redirectUri (Ok tokens) in
  res st = fresh_response ->
  unexpected_request (Some u) = false ->
  searchParams env u (base_url port) = Some qs ->
  truthy_opt (qs_get qs (str "error")) = false ->
  qs_get qs (str "state") = Some state ->
  qs_get qs (str "code") = Some code ->
  code <> [] ->
  getToken env (trace st) code redirectUri = Ok tokens ->
  mkdir_error env (trace st ++ [exchanged]) D = Some e
  \/ (mkdir_error env (trace st ++ [exchanged]) D = None
      /\ writeFile_error env (trace st ++ [exchanged; EvMkdir D (Ok tt)]) P
           (JSON.stringify tokens) = Some e) ->
  exists st',
    requestListener env state redirectUri port (Some u) st = (Ok tt, st')
    /\ credentials st' = tokens
    /\ loginComplete st' = settle (Rejected e) (loginComplete st)
    /\ res st' = mkResponse (Some (301, SIGN_IN_FAILURE_URL)) [] true
    /\ forall q content r,
         EvWriteFile q content r ∈ new_events st st' -> r = Throw e.
Proof.
  intros P D exchanged Hres Hu Hq He Hs Hc Hne Hg Hfail.
  subst P D exchanged. unfold requestListener. rewrite Hu.
  cbn [show_opt]. rewrite Hq, He, Hc.
  rewrite bool_decide_eq_true_2 by done. cbn [negb].
  destruct code as [|c code]; [done|]. cbn [truthy_opt truthy default].
  open_state st. unfold try_finally, try_catch, mbind, M_bind, client_getToken.
  simpl. rewrite Hg. simpl. rewrite cacheCredentials_run. simpl.
  destruct Hfail as [Hm|[Hm Hw]]; rewrite Hm; simpl.
  - eexists. split; [reflexivity|].
    destruct sv; simpl; split_all; try done.
    all: intros q content r;
      rewrite (new_events_app _ _ [_; _]) by (simpl; by rewrite <- !app_assoc);
      intros [?|[?|?%elem_of_nil]%elem_of_cons]%elem_of_cons; done.
  - rewrite <- app_assoc. simpl. rewrite Hw. simpl.
    eexists. split; [reflexivity|].
    destruct sv; simpl; split_all; try done.
    all: intros q content r;
      rewrite (new_events_app _ _ [_; _; _]) by (simpl; by rewrite <- !app_assoc);
      intros [?|[?|[?|?%elem_of_nil]%elem_of_cons]%elem_of_cons]%elem_of_cons;
      by simplify_eq.
Qed.

End receiver_more.

(* ===================================================================== *)
(** ** Further properties: the attempt and the headless channel *)
(* ===================================================================== *)

Section attempt_more.

Import Js OAuth2 Spec.

(** The token endpoint is contacted by the listener only for the code
    of a request that carries the nonce, and with the redirect URI the
    listener closes over. *)
Lemma listener_exchange_events env state redirectUri port url st c uri r :
  res st = fresh_response ->
  EvGetToken c uri r
    ∈ new_events st (requestListener env state redirectUri port url st).2 ->
  uri = redirectUri
  /\ exists u qs,
       url = Some u
       /\ searchParams env u (base_url port) = Some qs
       /\ truthy_opt (qs_get qs (str "error")) = false
       /\ qs_get qs (str "state") = Some state
       /\ qs_get qs (str "code") = Some c.
Proof.
  intros Hres.
  destruct (unexpected_request url) eqn:Hu.
  { destruct (listener_unexpected env state redirectUri port url st Hres Hu)
      as (st' & -> & Hr). cbn [snd]; destruct (refused_summary _ _ _ _ Hr) as (_ & _ & -> & _).
    by intros ?%elem_of_nil. }
  destruct url as [u|]; [|done].
  destruct (searchParams env u (base_url port)) as [qs|] eqn:Hq.
  2:{ destruct (listener_invalid_url env state redirectUri port u st Hres Hu Hq)
        as (st' & -> & Hr). cbn [snd]; destruct (refused_summary _ _ _ _ Hr) as (_ & _ & -> & _).
      by intros ?%elem_of_nil. }
  destruct (truthy_opt (qs_get qs (str "error"))) eqn:He.
  { destruct (listener_error_param env state redirectUri port u qs st Hres Hu Hq He)
      as (st' & -> & Hr). cbn [snd]; destruct (refused_summary _ _ _ _ Hr) as (_ & _ & -> & _).
    by intros ?%elem_of_nil. }
  destruct (decide (qs_get qs (str "state") = Some state)) as [Hs|Hs].
  2:{ destruct (listener_state_mismatch env state redirectUri port u qs st
                  Hres Hu Hq He Hs) as (st' & -> & Hr).
      cbn [snd]; destruct (refused_summary _ _ _ _ Hr) as (_ & _ & -> & _).
      by intros ?%elem_of_nil. }
  destruct (truthy_opt (qs_get qs (str "code"))) eqn:Hc.
  2:{ destruct (listener_missing_code env state redirectUri port u qs st
                  Hres Hu Hq He Hs Hc) as (st' & -> & Hr).
      cbn [snd]; destruct (refused_summary _ _ _ _ Hr) as (_ & _ & -> & _).
      by intros ?%elem_of_nil. }
  destruct (qs_get qs (str "code")) as [code|] eqn:Hcode; [|done].
  unfold requestListener. rewrite Hu. cbn [show_opt]. rewrite Hq, He, Hcode.
  rewrite bool_decide_eq_true_2 by done. cbn [negb]. rewrite Hc.
  cbn [default].
  open_state st. unfold try_finally, try_catch, mbind, M_bind, client_getToken.
  simpl. destruct (getToken env tr code redirectUri) as [tokens|e] eqn:Hg; simpl.
  - rewrite cacheCredentials_run. simpl.
    destruct (mkdir_error env _ _) as [e1|]; simpl.
    + destruct sv; simpl;
        rewrite (new_events_app _ _ [_; _]) by (simpl; by rewrite <- !app_assoc);
        intros [?|[?|?%elem_of_nil]%elem_of_cons]%elem_of_cons; simplify_eq;
        (split; [done|]; by exists u, qs).
    + destruct (writeFile_error env _ _ _) as [e2|]; simpl.
      * destruct sv; simpl;
          rewrite (new_events_app _ _ [_; _; _]) by (simpl; by rewrite <- !app_assoc);
          intros [?|[?|[?|?%elem_of_nil]%elem_of_cons]%elem_of_cons]%elem_of_cons;
          simplify_eq; (split; [done|]; by exists u, qs).
      * destruct sv; simpl;
          rewrite (new_events_app _ _ [_; _; _]) by (simpl; by rewrite <- !app_assoc);
          intros [?|[?|[?|?%elem_of_nil]%elem_of_cons]%elem_of_cons]%elem_of_cons;
          simplify_eq; (split; [done|]; by exists u, qs).
  - destruct sv; simpl;
      rewrite (new_events_app _ _ [_]) by (simpl; by rewrite <- ?app_assoc);
      intros [?|?%elem_of_nil]%elem_of_cons; simplify_eq; (split; [done|]; by exists u, qs).
Qed.

(** The headless channel contacts the token endpoint with the trimmed
    code and its redirect URI, and with nothing else. *)
Lemma exchange_events env redirectUri code st c uri r :
  EvGetToken c uri r
    ∈ new_events st (exchangeCodeFunction env redirectUri code st).2 ->
  uri = redirectUri /\ c = trim code /\ forallb is_whitespace code = false.
Proof.
  destruct (forallb is_whitespace code) eqn:Hb.
  { rewrite exchange_blank by done. simpl.
    rewrite new_events_same by done. by intros ?%elem_of_nil. }
  unfold exchangeCodeFunction. rewrite not_blank_test by done.
  open_state st. unfold try_catch, mbind, M_bind, client_getToken. simpl.
  destruct (getToken env tr (trim code) redirectUri) as [tokens|e] eqn:Hg; simpl.
  - rewrite cacheCredentials_run. simpl.
    destruct (mkdir_error env _ _) as [e1|]; simpl.
    + rewrite (new_events_app _ _ [_; _]) by (simpl; by rewrite <- !app_assoc).
      intros [?|[?|?%elem_of_nil]%elem_of_cons]%elem_of_cons; by simplify_eq.
    + destruct (writeFile_error env _ _ _) as [e2|]; simpl.
      * rewrite (new_events_app _ _ [_; _; _]) by (simpl; by rewrite <- !app_assoc).
        intros [?|[?|[?|?%elem_of_nil]%elem_of_cons]%elem_of_cons]%elem_of_cons;
          by simplify_eq.
      * rewrite (new_events_app _ _ [_; _; _]) by (simpl; by rewrite <- !app_assoc).
        intros [?|[?|[?|?%elem_of_nil]%elem_of_cons]%elem_of_cons]%elem_of_cons;
          by simplify_eq.
  - rewrite (new_events_app _ _ [_]) by (simpl; by rewrite <- ?app_assoc).
    intros [?|?%elem_of_nil]%elem_of_cons; by simplify_eq.
Qed.

(** X4. An attempt exchanges codes only with what it put in its own
    authorization URL.  After [authWithWeb], in the interactive flow a
    request reaches the token endpoint only if it parses and carries the
    [state] of the URL, and the exchange is made for the [code] of that
    request with the [redirect_uri] of the URL; in the headless flow the
    exchange function sends the trimmed code with the [redirect_uri] of
    the URL. *)
Theorem attempt_exchanges_with_its_own_nonce_and_redirect env st :
  exists login st1 opts,
    authWithWeb env st = (Ok login, st1)
    /\ authUrl login = generateAuthUrl env opts
    /\ if bool_decide (HEADLESS_LOGIN env = Some (str "true"))
       then exists step,
              headlessStep login = Some step
              /\ forall code st' c uri r,
                   EvGetToken c uri r
                     ∈ new_events st' (step_exchangeCodeFunction step code st').2 ->
                   uri = redirect_uri opts /\ c = trim code
       else forall url c uri r,
              EvGetToken c uri r ∈ new_events st1 (handle_request env url st1).2 ->
              uri = redirect_uri opts
              /\ exists u qs,
                   url = Some u
                   /\ searchParams env u (base_url 8081) = Some qs
                   /\ qs_get qs (str "state") = Some (state opts)
                   /\ qs_get qs (str "code") = Some c.
Proof.
  unfold authWithWeb, headless, crypto_randomBytes. unfold mbind, M_bind.
  destruct (bool_decide (HEADLESS_LOGIN env = Some (str "true"))).
  - eexists _, _, _. split; [reflexivity|]. split; [reflexivity|].
    eexists. split; [reflexivity|]. simpl.
    intros code st' c uri r Hin. apply exchange_events in Hin as (-> & -> & _). done.
  - eexists _, _, _. split; [reflexivity|]. split; [reflexivity|].
    intros url c uri r. unfold handle_request. simpl.
    intros Hin.
    match type of Hin with
    | context [requestListener env ?s ?ru ?p url ?st0] =>
        change (new_events _ _) with
          (new_events st0 (requestListener env s ru p url st0).2) in Hin;
        apply (listener_exchange_events env s ru p url st0) in Hin
          as (-> & u & qs & -> & Hq & _ & Hs & Hc); [|reflexivity]
    end.
    split; [done|]. eauto 10.
Qed.

End attempt_more.

Section headless_more.

Import Js OAuth2 Spec.

(** What the exchange function answers and what it asks of the
    promise. *)
Lemma exchange_outcome env redirectUri code st :
  exists o st',
    exchangeCodeFunction env redirectUri code st = (o, st')
    /\ match o with
       | Ok _ =>
           loginComplete st' = settle Resolved (loginComplete st)
           /\ files st' !! getCachedCredentialPath env
              = Some (JSON.stringify (credentials st'))
       | Throw m =>
           loginComplete st' = settle (Rejected m) (loginComplete st)
           /\ (m = str "No authorization code provided."
               \/ exists cause,
                    m = str "Error exchanging authorization code: " ++ cause)
       end.
Proof.
  destruct (forallb is_whitespace code) eqn:Hb.
  { rewrite exchange_blank by done. eexists _, _. split; [reflexivity|].
    simpl. split; [done|]. by left. }
  unfold exchangeCodeFunction. rewrite not_blank_test by done.
  open_state st. unfold try_catch, mbind, M_bind, client_getToken. simpl.
  destruct (getToken env tr (trim code) redirectUri) as [tokens|e] eqn:Hg; simpl.
  - rewrite cacheCredentials_run. simpl.
    destruct (mkdir_error env _ _) as [e1|]; simpl.
    + eexists _, _. split; [reflexivity|]. simpl. split; [done|]. eauto.
    + destruct (writeFile_error env _ _ _) as [e2|]; simpl.
      * eexists _, _. split; [reflexivity|]. simpl. split; [done|]. eauto.
      * eexists _, _. split; [reflexivity|]. simpl. split; [done|].
        apply lookup_insert_eq.
  - eexists _, _. split; [reflexivity|]. simpl. split; [done|]. eauto.
Qed.

(** The run of the exchange function on a code that the token endpoint
    accepts, when the cache can be written. *)
Lemma exchange_accepted_run env redirectUri code tokens st :
  let P := getCachedCredentialPath env in
  let D := path_dirname env P in
  let exchanged := EvGetToken (trim code) redirectUri (Ok tokens) in
  forallb is_whitespace code = false ->
  getToken env (trace st) (trim code) redirectUri = Ok tokens ->
  mkdir_error env (trace st ++ [exchanged]) D = None ->
  writeFile_error env (trace st ++ [exchanged; EvMkdir D (Ok tt)]) P
    (JSON.stringify tokens) = None ->
  exists st',
    exchangeCodeFunction env redirectUri code st = (Ok tt, st')
    /\ credentials st' = tokens
    /\ files st' = <[ P := JSON.stringify tokens ]> (files st)
    /\ loginComplete st' = settle Resolved (loginComplete st)
    /\ new_events st st'
       = [exchanged; EvMkdir D (Ok tt);
          EvWriteFile P (JSON.stringify tokens) (Ok tt)].
Proof.
  intros P D exchanged Hb Hg Hm Hw. subst P D exchanged.
  unfold exchangeCodeFunction. rewrite not_blank_test by done.
  open_state st. unfold try_catch, mbind, M_bind, client_getToken. simpl.
  rewrite Hg. simpl. rewrite cacheCredentials_run. simpl.
  rewrite Hm. simpl. rewrite <- app_assoc. simpl. rewrite Hw. simpl.
  eexists. split; [reflexivity|]. simpl. split_all; try done.
  apply new_events_app. simpl. by rewrite <- !app_assoc.
Qed.

(** A code that the token endpoint rejects while the promise is pending
    rejects the promise. *)
Lemma exchange_rejected_run env redirectUri code cause st :
  loginComplete st = Pending ->
  forallb is_whitespace code = false ->
  getToken env (trace st) (trim code) redirectUri = Throw cause ->
  let m := str "Error exchanging authorization code: " ++ cause in
  exists st',
    exchangeCodeFunction env redirectUri code st = (Throw m, st')
    /\ loginComplete st' = Rejected m.
Proof.
  intros Hl Hb Hg m.
  destruct (exchange_not_blank env redirectUri code st Hb)
    as (o & st' & Hrun & _ & more & _ & Hr).
  rewrite Hg in Hr. destruct Hr as (-> & _ & _ & Hr).
  exists st'. split; [done|]. by rewrite Hr, Hl.
Qed.

(** The run of a retry: a first code rejected while the promise is
    pending, a second one accepted. *)
Lemma exchange_retry_run env redirectUri code1 code2 cause tokens st :
  let P := getCachedCredentialPath env in
  let D := path_dirname env P in
  let st1 := (exchangeCodeFunction env redirectUri code1 st).2 in
  let exchanged := EvGetToken (trim code2) redirectUri (Ok tokens) in
  loginComplete st = Pending ->
  forallb is_whitespace code1 = false ->
  forallb is_whitespace code2 = false ->
  getToken env (trace st) (trim code1) redirectUri = Throw cause ->
  getToken env (trace st1) (trim code2) redirectUri = Ok tokens ->
  mkdir_error env (trace st1 ++ [exchanged]) D = None ->
  writeFile_error env (trace st1 ++ [exchanged; EvMkdir D (Ok tt)]) P
    (JSON.stringify tokens) = None ->
  let first_error := str "Error exchanging authorization code: " ++ cause in
  exists st2,
    exchangeCodeFunction env redirectUri code1 st = (Throw first_error, st1)
    /\ exchangeCodeFunction env redirectUri code2 st1 = (Ok tt, st2)
    /\ credentials st2 = tokens
    /\ files st2 !! P = Some (JSON.stringify tokens)
    /\ loginComplete st2 = Rejected first_error.
Proof.
  intros P D st1 exchanged Hl Hb1 Hb2 Hg1 Hg2 Hm Hw first_error.
  destruct (exchange_accepted_run env redirectUri code2 tokens st1
              Hb2 Hg2 Hm Hw) as (st2 & Hrun & Hc & Hf & Hl2 & _).
  destruct (exchange_rejected_run env redirectUri code1 cause st Hl Hb1 Hg1)
    as (st1' & Hrun1 & Hl1).
  assert (st1' = st1) as -> by (subst st1; by rewrite Hrun1).
  exists st2. split; [done|]. split; [done|]. split; [done|].
  split; [rewrite Hf; apply lookup_insert_eq|].
  rewrite Hl1 in Hl2. done.
Qed.

(** X5. The exchange function throws exactly what it rejects the promise
    with, and returns normally only after the cache is written: when it
    returns, it has asked to resolve the promise and the cache file holds
    the credentials of the client; when it throws, the message is
    "No authorization code provided." or
    "Error exchanging authorization code: <cause>", and it has asked to
    reject the promise with the same message. *)
Theorem exchangeCode_outcome_agrees_with_promise env redirectUri code st :
  exists o st',
    exchangeCodeFunction env redirectUri code st = (o, st')
    /\ match o with
       | Ok _ =>
           loginComplete st' = settle Resolved (loginComplete st)
           /\ files st' !! getCachedCredentialPath env
              = Some (JSON.stringify (credentials st'))
       | Throw m =>
           loginComplete st' = settle (Rejected m) (loginComplete st)
           /\ (m = str "No authorization code provided."
               \/ exists cause,
                    m = str "Error exchanging authorization code: " ++ cause)
       end.
Proof. apply exchange_outcome. Qed.

(** X6. A code with blanks around it is exchanged without them.  When
    the token endpoint accepts the trimmed code and the write succeeds,
    the function returns, the tokens are on the client, the cache file
    holds their serialisation and the promise is asked to resolve; the
    calls are the exchange, [fs.mkdir], [fs.writeFile]. *)
Theorem exchangeCode_trims_and_logs_in env redirectUri code tokens st :
  let P := getCachedCredentialPath env in
  let D := path_dirname env P in
  let exchanged := EvGetToken (trim code) redirectUri (Ok tokens) in
  forallb is_whitespace code = false ->
  getToken env (trace st) (trim code) redirectUri = Ok tokens ->
  mkdir_error env (trace st ++ [exchanged]) D = None ->
  writeFile_error env (trace st ++ [exchanged; EvMkdir D (Ok tt)]) P
    (JSON.stringify tokens) = None ->
  exists st',
    exchangeCodeFunction env redirectUri code st = (Ok tt, st')
    /\ credentials st' = tokens
    /\ files st' = <[ P := JSON.stringify tokens ]> (files st)
    /\ loginComplete st' = settle Resolved (loginComplete st)
    /\ new_events st st'
       = [exchanged; EvMkdir D (Ok tt);
          EvWriteFile P (JSON.stringify tokens) (Ok tt)].
Proof. apply exchange_accepted_run. Qed.

(** X7. A retry after a rejected code does not revive the login.  When
    the token endpoint rejects a first code while the promise is
    pending, and accepts a second one, the second call returns normally,
    puts the new tokens on the client and in the cache file, and the
    promise stays rejected with the first error: the controller that
    awaits it gets that error. *)
Theorem exchangeCode_retry_leaves_promise_rejected
    env redirectUri code1 code2 cause tokens st :
  let P := getCachedCredentialPath env in
  let D := path_dirname env P in
  let st1 := (exchangeCodeFunction env redirectUri code1 st).2 in
  let exchanged := EvGetToken (trim code2) redirectUri (Ok tokens) in
  loginComplete st = Pending ->
  forallb is_whitespace code1 = false ->
  forallb is_whitespace code2 = false ->
  getToken env (trace st) (trim code1) redirectUri = Throw cause ->
  getToken env (trace st1) (trim code2) redirectUri = Ok tokens ->
  mkdir_error env (trace st1 ++ [exchanged]) D = None ->
  writeFile_error env (trace st1 ++ [exchanged; EvMkdir D (Ok tt)]) P
    (JSON.stringify tokens) = None ->
  let first_error := str "Error exchanging authorization code: " ++ cause in
  exists st2,
    exchangeCodeFunction env redirectUri code2 st1 = (Ok tt, st2)
    /\ credentials st2 = tokens
    /\ files st2 !! P = Some (JSON.stringify tokens)
    /\ loginComplete st2 = Rejected first_error
    /\ Controller.awaitLoginComplete st2 = Some (Throw first_error).
Proof.
  intros P D st1 exchanged Hl Hb1 Hb2 Hg1 Hg2 Hm Hw first_error.
  destruct (exchange_retry_run env redirectUri code1 code2 cause tokens st
              Hl Hb1 Hb2 Hg1 Hg2 Hm Hw) as (st2 & _ & Hrun & Hc & Hf & Hl2).
  exists st2. split_all; try done.
  unfold Controller.awaitLoginComplete. by rewrite Hl2.
Qed.

End headless_more.

(* ===================================================================== *)
(** ** Further properties: the credential cache *)
(* ===================================================================== *)

Section cache_more.

Import Js OAuth2 Spec.

(** The run of [clearCachedCredentialFile], by what [fs.rm] answers. *)
Lemma clear_run env st :
  let P := getCachedCredentialPath env in
  exists st',
    clearCachedCredentialFile env st = (Ok tt, st')
    /\ (forall p, p <> P -> files st' !! p = files st !! p)
    /\ (rm_error env (trace st) P = None -> files st' !! P = None)
    /\ (files st !! P = None -> files st' = files st)
    /\ dirs st' = dirs st
    /\ credentials st' = credentials st
    /\ loginComplete st' = loginComplete st
    /\ server st' = server st
    /\ exists r, trace st' = trace st ++ [EvRm P r].
Proof.
  intros P. unfold clearCachedCredentialFile, try_catch, fs_rm. fold P.
  destruct (rm_error env (trace st) P) as [e|] eqn:Hrm.
  { eexists. split; [reflexivity|]. simpl. split_all; eauto; done. }
  destruct (files st !! P) as [content|] eqn:Hf.
  - eexists. split; [reflexivity|]. simpl. split_all; eauto; try done.
    + intros p Hp. by apply lookup_delete_ne.
    + intros _. apply lookup_delete_eq.
  - eexists. split; [reflexivity|]. simpl. split_all; eauto; done.
Qed.

(** X8. [clearCachedCredentialFile] never throws, also when the file is
    missing or cannot be removed.  It touches no file but the fixed cache
    file, which is gone afterwards unless [fs.rm] failed; the
    credentials on the client, the promise and the server are as
    before. *)
Theorem clearCachedCredentialFile_removes_only_the_cache_file env st :
  let P := getCachedCredentialPath env in
  exists st',
    clearCachedCredentialFile env st = (Ok tt, st')
    /\ (forall p, p <> P -> files st' !! p = files st !! p)
    /\ (rm_error env (trace st) P = None -> files st' !! P = None)
    /\ (files st !! P = None -> files st' = files st)
    /\ dirs st' = dirs st
    /\ credentials st' = credentials st
    /\ loginComplete st' = loginComplete st
    /\ server st' = server st.
Proof.
  intros P. destruct (clear_run env st)
    as (st' & ? & ? & ? & ? & ? & ? & ? & ? & _).
  exists st'. done.
Qed.

(** The load that follows a clear that worked reads the missing file
    and stops. *)
Lemma load_after_clear env st :
  let st1 := (clearCachedCredentialFile env st).2 in
  keyFile env = getCachedCredentialPath env ->
  rm_error env (trace st) (getCachedCredentialPath env) = None ->
  exists st2 e,
    loadCachedCredentials env st1 = (Ok false, st2)
    /\ new_events st1 st2 = [EvReadFile (getCachedCredentialPath env) (Throw e)]
    /\ credentials st2 = credentials st.
Proof.
  intros st1 Hkey Hrm. subst st1.
  destruct (clear_run env st) as (st1 & -> & _ & Hgone & _ & _ & Hc & _).
  cbn [snd]. specialize (Hgone Hrm).
  unfold loadCachedCredentials, try_catch, mbind, M_bind, fs_readFile.
  rewrite Hkey, Hgone.
  destruct (readFile_error env (trace st1) _) as [e|].
  - eexists _, _. split; [reflexivity|]. simpl. split; [|done].
    by apply new_events_app.
  - eexists _, _. split; [reflexivity|]. simpl. split; [|done].
    by apply new_events_app.
Qed.

(** X9. After the cache is cleared, the next [loadCachedCredentials] is a
    miss, whatever the client library would answer, as long as the load
    reads the fixed path (no other path in the environment) and [fs.rm]
    did not fail: it reads the missing file and makes no other call. *)
Theorem load_after_clear_misses env st :
  let st1 := (clearCachedCredentialFile env st).2 in
  keyFile env = getCachedCredentialPath env ->
  rm_error env (trace st) (getCachedCredentialPath env) = None ->
  exists st2 e,
    loadCachedCredentials env st1 = (Ok false, st2)
    /\ new_events st1 st2 = [EvReadFile (getCachedCredentialPath env) (Throw e)]
    /\ credentials st2 = credentials st.
Proof. apply load_after_clear. Qed.

(** X10. A save replaces the whole file: after two saves that succeed
    the cache file holds the second value only, whatever it held before,
    and the directory made by the first save is not an error for the
    second.  No other file is touched. *)
Theorem second_save_overwrites_first env creds1 creds2 st st1 st2 :
  let P := getCachedCredentialPath env in
  let D := path_dirname env P in
  cacheCredentials env creds1 st = (Ok tt, st1) ->
  cacheCredentials env creds2 st1 = (Ok tt, st2) ->
  files st2 = <[ P := JSON.stringify creds2 ]> (files st)
  /\ dirs st2 = {[ D ]} ∪ dirs st
  /\ (forall p, p <> P -> files st2 !! p = files st !! p).
Proof.
  intros P D H1 H2.
  destruct (cacheCredentials_ok env creds1 st st1 H1) as (Hf1 & Hd1 & _).
  destruct (cacheCredentials_ok env creds2 st1 st2 H2) as (Hf2 & Hd2 & _).
  fold P in Hf1, Hf2. fold P D in Hd1, Hd2.
  assert (Hf : files st2 = <[ P := JSON.stringify creds2 ]> (files st)).
  { rewrite Hf2, Hf1. apply insert_insert_eq. }
  split; [done|]. split.
  - rewrite Hd2, Hd1. rewrite (assoc_L (∪)). by rewrite (idemp_L (∪)).
  - intros p Hp. rewrite Hf. by apply lookup_insert_ne.
Qed.

(** X11. What [loadCachedCredentials] calls, and what it never calls.  It
    reads one file, the one named by [GOOGLE_APPLICATION_CREDENTIALS]
    when that is set and not empty, the fixed cache file otherwise.  The
    local check is made only when that file was read and parsed; the
    remote introspection is made only with the non-empty token that the
    local check returned.  It never writes. *)
Theorem load_calls_in_order env st :
  let st' := (loadCachedCredentials env st).2 in
  let source :=
    match GOOGLE_APPLICATION_CREDENTIALS env with
    | Some (c :: p) => c :: p
    | _ => getCachedCredentialPath env
    end in
  (forall p r, EvReadFile p r ∈ new_events st st' ->
     p = source /\ r = read_outcome env st source)
  /\ (forall a, EvGetAccessToken a ∈ new_events st st' ->
        exists content parsed,
          read_outcome env st source = Ok content
          /\ JSON.parse content = Some parsed)
  /\ (forall tok r, EvGetTokenInfo tok r ∈ new_events st st' ->
        tok <> [] /\ EvGetAccessToken (Ok (Some tok)) ∈ new_events st st')
  /\ Forall (fun ev => is_fs_write ev = false) (new_events st st')
  /\ (length (new_events st st') <= 3)%nat.
Proof.
  intros st' source. subst st'.
  assert (Hsrc : keyFile env = source).
  { unfold keyFile, source.
    destruct (GOOGLE_APPLICATION_CREDENTIALS env) as [[|c p]|]; done. }
  unfold loadCachedCredentials, try_catch, mbind, M_bind, fs_readFile.
  rewrite Hsrc. fold (read_outcome env st source).
  destruct (read_outcome env st source) as [content|e] eqn:Hr.
  2:{ simpl. events.
      split_all; [| | |by repeat constructor|simpl; lia].
      - intros p r [?|?%elem_of_nil]%elem_of_cons; by simplify_eq.
      - intros a [?|?%elem_of_nil]%elem_of_cons; by simplify_eq.
      - intros t r [?|?%elem_of_nil]%elem_of_cons; by simplify_eq. }
  unfold JSON_parse.
  destruct (JSON.parse content) as [parsed|] eqn:Hp.
  2:{ simpl. events.
      split_all; [| | |by repeat constructor|simpl; lia].
      - intros p r [?|?%elem_of_nil]%elem_of_cons; by simplify_eq.
      - intros a [?|?%elem_of_nil]%elem_of_cons; by simplify_eq.
      - intros t r [?|?%elem_of_nil]%elem_of_cons; by simplify_eq. }
  unfold mret, M_ret, setCredentials, modify, client_getAccessToken. simpl.
  destruct (getAccessToken env _ parsed) as [[[|c tok]|]|e] eqn:Ha; simpl.
  1,3,4: events;
    (split_all; [| | |by repeat constructor|simpl; lia]);
    [ intros p r [?|[?|?%elem_of_nil]%elem_of_cons]%elem_of_cons; by simplify_eq
    | intros a _; eauto
    | intros t r [?|[?|?%elem_of_nil]%elem_of_cons]%elem_of_cons; by simplify_eq ].
  unfold client_getTokenInfo. simpl.
  destruct (getTokenInfo env _ (c :: tok)) as [[]|e] eqn:Hi; simpl.
  all: events.
  all: split_all; [| | |by repeat constructor|simpl; lia].
  all: try (intros a _; by eauto).
  all: intros ? r [?|[?|[?|?%elem_of_nil]%elem_of_cons]%elem_of_cons]%elem_of_cons;
        simplify_eq; try done.
  all: split; [done|]; set_solver.
Qed.


(** X12. A load that fails after the file was parsed has still replaced
    the credentials of the client.  When the file is read and parses,
    the parsed content is set on the client and the local check is run
    on it: after the load the client holds what that check left of the
    parsed content (the parsed content itself when the library does not
    refresh), also when the load answers [false] because the token is
    revoked.  When the file cannot be read or does not parse, the client
    is as before and the answer is [false]. *)
Theorem load_replaces_client_credentials_once_parsed env st :
  exists b st',
    loadCachedCredentials env st = (Ok b, st')
    /\ match read_outcome env st (keyFile env) with
       | Ok content =>
           let read := EvReadFile (keyFile env) (Ok content) in
           match JSON.parse content with
           | Some parsed =>
               credentials st'
               = refreshedCredentials env (trace st ++ [read]) parsed
               /\ (refreshedCredentials env (trace st ++ [read]) parsed = parsed ->
                   credentials st' = parsed)
               /\ (forall e,
                     (exists tok,
                        getAccessToken env (trace st ++ [read]) parsed
                        = Ok (Some tok)
                        /\ getTokenInfo env
                             (trace st ++ [read; EvGetAccessToken (Ok (Some tok))])
                             tok
                           = Throw e) ->
                     b = false)
           | None => credentials st' = credentials st /\ b = false
           end
       | Throw _ => credentials st' = credentials st /\ b = false
       end.
Proof.
  destruct (load_run env st) as (b & st' & Hrun & _ & Hb & _ & Hc).
  exists b, st'. split; [done|].
  assert (Hno : ~ hydrates env st -> b = false).
  { intros Hn. destruct b; [|done]. exfalso. by apply Hn, Hb. }
  revert Hrun.
  unfold loadCachedCredentials, try_catch, mbind, M_bind, fs_readFile.
  fold (read_outcome env st (keyFile env)).
  destruct (read_outcome env st (keyFile env)) as [content|e] eqn:Hr.
  2:{ intros [= <- <-]. done. }
  unfold JSON_parse.
  destruct (JSON.parse content) as [parsed|] eqn:Hp.
  2:{ intros [= <- <-]. done. }
  intros _. cbv zeta.
  assert (Hheld : credentials st'
                  = refreshedCredentials env
                      (trace st ++ [EvReadFile (keyFile env) (Ok content)]) parsed)
    by by apply (Hc content).
  split; [done|]. split; [intros Hsame; by rewrite Hheld|].
  intros e (tok & Ha & Hi). apply Hno.
  intros (c & p & t & Hr' & Hp' & Ha' & _ & Hi').
  assert (c = content) as -> by congruence.
  assert (p = parsed) as -> by congruence.
  assert (t = tok) as -> by congruence. congruence.
Qed.

End cache_more.

(* ===================================================================== *)
(** ** Further properties: the controller *)
(* ===================================================================== *)

Section strings_more.

Import Js.

Lemma trimStart_fixed s :
  (forall c r, s = c :: r -> is_whitespace c = false) -> trimStart s = s.
Proof.
  destruct s as [|c r]; [done|]. intros H. simpl.
  by rewrite (H c r eq_refl).
Qed.

Lemma trimStart_idem s : trimStart (trimStart s) = trimStart s.
Proof.
  apply trimStart_fixed. intros c r E. by apply (trimStart_head s c r).
Qed.

Lemma trimStart_suffix s : exists pre, s = pre ++ trimStart s.
Proof.
  induction s as [|c s [pre IH]]; [by exists []|]. simpl.
  destruct (is_whitespace c).
  - exists (c :: pre). simpl. by rewrite <- IH.
  - by exists [].
Qed.

(** [s.trim().trim()] is [s.trim()]. *)
Lemma trim_idem s : trim (trim s) = trim s.
Proof.
  unfold trim, trimEnd.
  set (t := trimStart s). set (u := trimStart (rev t)).
  assert (Hfix : trimStart (rev u) = rev u).
  { apply trimStart_fixed. intros c r E.
    destruct (trimStart_suffix (rev t)) as [pre Hpre]. fold u in Hpre.
    apply (f_equal (@rev N)) in Hpre.
    rewrite rev_involutive, rev_app_distr, E in Hpre.
    by apply (trimStart_head s c (r ++ rev pre)). }
  rewrite Hfix, rev_involutive. unfold u. by rewrite trimStart_idem.
Qed.

End strings_more.

Section controller.

Import Js OAuth2 Spec Controller.

(** What a cache load leaves alone, and that it draws no random
    bytes. *)
Lemma load_frame env st :
  let st' := (loadCachedCredentials env st).2 in
  loginComplete st' = loginComplete st
  /\ server st' = server st
  /\ res st' = res st
  /\ (forall n b, EvRandomBytes n b ∉ new_events st st').
Proof.
  unfold loadCachedCredentials, try_catch, mbind, M_bind, fs_readFile.
  fold (read_outcome env st (keyFile env)).
  destruct (read_outcome env st (keyFile env)) as [content|e] eqn:Hr.
  2:{ simpl. split_all; try done. intros n b.
      erewrite new_events_app by (simpl; reflexivity).
      intros [?|?%elem_of_nil]%elem_of_cons; by simplify_eq. }
  unfold JSON_parse.
  destruct (JSON.parse content) as [parsed|] eqn:Hp.
  2:{ simpl. split_all; try done. intros n b.
      erewrite new_events_app by (simpl; reflexivity).
      intros [?|?%elem_of_nil]%elem_of_cons; by simplify_eq. }
  unfold mret, M_ret, setCredentials, modify, client_getAccessToken. simpl.
  destruct (getAccessToken env _ parsed) as [[[|c tok]|]|e] eqn:Ha; simpl.
  1,3,4: split_all; try done; intros n b;
    erewrite new_events_app
      by (simpl; rewrite <- ?app_assoc; simpl; reflexivity);
    intros [?|[?|?%elem_of_nil]%elem_of_cons]%elem_of_cons; by simplify_eq.
  unfold client_getTokenInfo. simpl.
  destruct (getTokenInfo env _ (c :: tok)) as [[]|e] eqn:Hi; simpl.
  all: split_all; try done; intros n b;
    erewrite new_events_app
      by (simpl; rewrite <- ?app_assoc; simpl; reflexivity);
    intros [?|[?|[?|?%elem_of_nil]%elem_of_cons]%elem_of_cons]%elem_of_cons;
    by simplify_eq.
Qed.

(** The answer of a cache load does not depend on what the client held
    before. *)
Lemma load_answer_fresh env c st :
  (loadCachedCredentials env (setCredentials c st).2).1
  = (loadCachedCredentials env st).1.
Proof.
  destruct (load_run env st) as (b & st1 & -> & _ & Hb & _).
  destruct (load_run env (setCredentials c st).2) as (b0 & st2 & -> & _ & Hb0 & _).
  simpl. f_equal.
  assert (H : hydrates env (setCredentials c st).2 <-> hydrates env st) by done.
  destruct b, b0; try done.
  - assert (false = true) by (apply Hb0, H, Hb; done). done.
  - assert (false = true) by (apply Hb, H, Hb0; done). done.
Qed.

(** The run of [authWithWeb] in interactive mode. *)
Lemma authWithWeb_interactive env st :
  headless env = false ->
  exists nonce login st',
    authWithWeb env st = (Ok login, st')
    /\ authUrl login
       = generateAuthUrl env
           (authUrlOpts (str "http://localhost:" ++ show_N PORT ++ CALLBACK_PATH)
              nonce)
    /\ headlessStep login = None
    /\ server st'
       = Some (mkServer nonce
                 (str "http://localhost:" ++ show_N PORT ++ CALLBACK_PATH)
                 (Some PORT) false).
Proof.
  intros Hh. eexists _, _, _. split.
  - unfold authWithWeb, mbind, M_bind, crypto_randomBytes. rewrite Hh.
    reflexivity.
  - done.
Qed.

(** The run of [getOauthClient] on a cache miss, up to the branch on the
    kind of attempt. *)
Lemma getOauthClient_miss env open_error sh st :
  (loadCachedCredentials env st).1 = Ok false ->
  exists st1 login st2,
    loadCachedCredentials env (setCredentials (JObj []) st).2 = (Ok false, st1)
    /\ authWithWeb env st1 = (Ok login, st2)
    /\ fs_untouched st st2
    /\ loginComplete st2 = Pending
    /\ getOauthClient env open_error sh st
       = match headlessStep login with
         | None =>
             let sh1 :=
               browser_open (authUrl login)
                 (console_log (MSG_LOGIN_REQUIRED (authUrl login))
                    (set_step None (set_step None sh))) in
             match open_error (authUrl login) with
             | Some e => (Throw e, sh1, st2)
             | None => (Ok AwaitingLogin, console_log MSG_WAITING sh1, st2)
             end
         | Some step =>
             (Ok AwaitingLogin,
              console_log MSG_INITIATED (set_step (Some step) (set_step None sh)),
              st2)
         end.
Proof.
  intros Hmiss. rewrite <- (load_answer_fresh env (JObj [])) in Hmiss.
  unfold getOauthClient.
  destruct (load_run env (setCredentials (JObj []) st).2)
    as (b & st1 & Hrun & [Hf Hd] & _).
  rewrite Hrun in Hmiss |- *. simpl in Hmiss. injection Hmiss as ->.
  exists st1.
  destruct (authWithWeb env st1) as [[login|e] st2] eqn:Hweb.
  2:{ exfalso. revert Hweb. unfold authWithWeb, mbind, M_bind, crypto_randomBytes.
      by destruct (headless env). }
  exists login, st2. split; [done|]. split; [done|].
  assert (Hst2 : files st2 = files st1 /\ dirs st2 = dirs st1
                 /\ loginComplete st2 = Pending).
  { revert Hweb. unfold authWithWeb, mbind, M_bind, crypto_randomBytes.
    destruct (headless env); intros [= <- <-]; done. }
  destruct Hst2 as (Hf2 & Hd2 & Hl2).
  split; [split; simpl in *; congruence|]. split; [done|].
  by destruct (headlessStep login).
Qed.

(** X13. [getOauthClient] returns at once exactly when the cache
    hydrates.  Then no login is started: the slot for the headless step
    is empty, no browser is opened, nothing is written to the console, no
    nonce is drawn, and the promise, the server and the files are as
    before.  Otherwise a nonce of 32 bytes is drawn and a new promise is
    pending. *)
Theorem getOauthClient_returns_at_once_iff_cache_hydrates
    env open_error sh st :
  exists o sh' st',
    getOauthClient env open_error sh st = (o, sh', st')
    /\ (o = Ok Returned <-> hydrates env st)
    /\ (hydrates env st ->
          currentHeadlessAuthStep sh' = None
          /\ opened sh' = opened sh
          /\ console sh' = console sh
          /\ loginComplete st' = loginComplete st
          /\ server st' = server st
          /\ fs_untouched st st'
          /\ forall n b, EvRandomBytes n b ∉ new_events st st')
    /\ (~ hydrates env st ->
          loginComplete st' = Pending
          /\ exists b, EvRandomBytes 32 b ∈ new_events st st').
Proof.
  destruct (load_run env st) as (b & st0 & Hrun0 & _ & Hb & _).
  destruct b.
  - assert (Hh : hydrates env st) by by apply Hb.
    pose proof (load_answer_fresh env (JObj []) st) as Hfresh.
    rewrite Hrun0 in Hfresh.
    unfold getOauthClient.
    destruct (load_run env (setCredentials (JObj []) st).2)
      as (b & st1 & Hrun & Hfs & _).
    pose proof (load_frame env (setCredentials (JObj []) st).2) as Hframe.
    rewrite Hrun in Hfresh, Hframe |- *. simpl in Hfresh, Hframe.
    injection Hfresh as ->.
    destruct Hframe as (Hl & Hs & _ & Hev).
    eexists _, _, _. split; [reflexivity|].
    split; [done|]. split; [|done]. intros _. split_all; try done.
  - assert (Hn : ~ hydrates env st).
    { intros H. apply Hb in H. done. }
    destruct (getOauthClient_miss env open_error sh st)
      as (st1 & login & st2 & Hrun & Hweb & Hfs & Hl & ->).
    { by rewrite Hrun0. }
    assert (Hev : exists b, EvRandomBytes 32 b ∈ new_events st st2).
    { destruct (load_run env (setCredentials (JObj []) st).2)
        as (b & st1' & Hrun' & _ & _ & [more Htr] & _).
      rewrite Hrun in Hrun'. injection Hrun' as <- <-. simpl in Htr.
      assert (Htr2 : trace st2
                = trace st1 ++ [EvRandomBytes 32 (randomBytes env (trace st1) 32)]).
      { revert Hweb. unfold authWithWeb, mbind, M_bind, crypto_randomBytes.
        destruct (headless env); intros [= <- <-]; done. }
      eexists. erewrite new_events_app
        by (rewrite Htr2, Htr, <- app_assoc; reflexivity).
      apply elem_of_app. right. apply list_elem_of_here. }
    destruct (headlessStep login) as [step|].
    + eexists _, _, _. split; [reflexivity|]. split; [split; [done|]; tauto|].
      split; [tauto|]. done.
    + simpl. destruct (open_error (authUrl login)).
      * eexists _, _, _. split; [reflexivity|]. split; [split; [done|]; tauto|].
        split; [tauto|]. done.
      * eexists _, _, _. split; [reflexivity|]. split; [split; [done|]; tauto|].
        split; [tauto|]. done.
Qed.

(** X14. A cache miss in headless mode.  [getOauthClient] opens no
    browser and no listener; it puts the step in the slot of the
    configuration, with the consent URL made for the out-of-band
    redirect and the exchange function for that redirect, and is then
    suspended on the pending promise.  The URL is not written to the
    console. *)
Theorem getOauthClient_headless_miss env open_error sh st :
  headless env = true ->
  (loadCachedCredentials env st).1 = Ok false ->
  exists step nonce sh' st',
    getOauthClient env open_error sh st = (Ok AwaitingLogin, sh', st')
    /\ currentHeadlessAuthStep sh' = Some step
    /\ step_type step = str "NEEDS_CODE"
    /\ step_authUrl step
       = generateAuthUrl env (authUrlOpts OOB_REDIRECT_URI nonce)
    /\ step_exchangeCodeFunction step = exchangeCodeFunction env OOB_REDIRECT_URI
    /\ opened sh' = opened sh
    /\ console sh' = console sh ++ [MSG_INITIATED]
    /\ server st' = server st
    /\ fs_untouched st st'
    /\ awaitLoginComplete st' = None.
Proof.
  intros Hh Hmiss.
  destruct (getOauthClient_miss env open_error sh st Hmiss)
    as (st1 & login & st2 & Hrun & Hweb & Hfs & Hl & ->).
  pose proof (load_frame env (setCredentials (JObj []) st).2) as Hframe.
  rewrite Hrun in Hframe. simpl in Hframe. destruct Hframe as (_ & Hs & _).
  revert Hweb. unfold authWithWeb, mbind, M_bind, crypto_randomBytes.
  rewrite Hh. intros [= <- <-]. simpl.
  eexists _, _, _, _. split; [reflexivity|]. simpl. by split_all.
Qed.

(** X15. A cache miss in interactive mode.  [getOauthClient] starts a
    listener on port 8081, writes the consent URL to the console and
    gives it to [open]; the URL is the one made for the redirect and the
    nonce that the listener holds.  When [open] fails, the function
    throws that error, and the listener is still open and the promise
    still pending. *)
Theorem getOauthClient_interactive_miss env open_error sh st :
  headless env = false ->
  (loadCachedCredentials env st).1 = Ok false ->
  exists listener url o sh' st',
    getOauthClient env open_error sh st = (o, sh', st')
    /\ server st' = Some listener
    /\ srv_port listener = Some 8081
    /\ srv_closed listener = false
    /\ url = generateAuthUrl env
               (authUrlOpts (srv_redirectUri listener) (srv_state listener))
    /\ opened sh' = opened sh ++ [url]
    /\ currentHeadlessAuthStep sh' = None
    /\ o = match open_error url with
           | Some e => Throw e
           | None => Ok AwaitingLogin
           end
    /\ console sh'
       = console sh ++ MSG_LOGIN_REQUIRED url
           :: match open_error url with
              | Some _ => []
              | None => [MSG_WAITING]
              end
    /\ fs_untouched st st'
    /\ awaitLoginComplete st' = None.
Proof.
  intros Hh Hmiss.
  destruct (getOauthClient_miss env open_error sh st Hmiss)
    as (st1 & login & st2 & Hrun & Hweb & Hfs & Hl & ->).
  destruct (authWithWeb_interactive env st1 Hh)
    as (nonce & login' & st' & Hw & Hurl & Hstep & Hsrv).
  assert (login' = login) as -> by congruence.
  assert (st' = st2) as -> by congruence.
  rewrite Hstep. cbv zeta. rewrite Hurl.
  set (uri := str "http://localhost:" ++ show_N PORT ++ CALLBACK_PATH) in *.
  set (url := generateAuthUrl env (authUrlOpts uri nonce)).
  exists (mkServer nonce uri (Some PORT) false), url.
  destruct (open_error url) as [e|] eqn:Ho.
  - eexists _, _, _. split; [reflexivity|]. cbn [opened console currentHeadlessAuthStep
      browser_open console_log set_step srv_port srv_closed srv_redirectUri srv_state].
    split_all; try done; try (by rewrite Ho).
    unfold awaitLoginComplete. by rewrite Hl.
  - eexists _, _, _. split; [reflexivity|]. cbn [opened console currentHeadlessAuthStep
      browser_open console_log set_step srv_port srv_closed srv_redirectUri srv_state].
    split_all; try done; try (by rewrite Ho).
    + by rewrite <- app_assoc.
    + unfold awaitLoginComplete. by rewrite Hl.
Qed.

End controller.

(* ===================================================================== *)
(** ** Further properties: the prompt and the auth command *)
(* ===================================================================== *)

Section auth_command.

Import Js OAuth2 Spec Ui.

(** A code that is not blank is never answered with the message for a
    missing code. *)
Lemma exchange_not_blank_message env redirectUri code st :
  forallb is_whitespace code = false ->
  match (exchangeCodeFunction env redirectUri code st).1 with
  | Ok _ => True
  | Throw m =>
      exists cause, m = str "Error exchanging authorization code: " ++ cause
  end.
Proof.
  intros Hb. unfold exchangeCodeFunction. rewrite not_blank_test by done.
  open_state st. unfold try_catch, mbind, M_bind, client_getToken. simpl.
  destruct (getToken env tr (trim code) redirectUri) as [tokens|e]; simpl.
  - rewrite cacheCredentials_run. simpl.
    destruct (mkdir_error env _ _) as [e1|]; simpl; [eauto|].
    destruct (writeFile_error env _ _ _) as [e2|]; simpl; [eauto|done].
  - eauto.
Qed.

Lemma trim_not_blank s :
  trim s <> [] -> forallb is_whitespace (trim s) = false.
Proof.
  intros Hne. destruct (forallb is_whitespace (trim s)) eqn:Hb; [|done].
  exfalso. apply Hne. rewrite <- trim_idem. by apply trim_blank.
Qed.

(** The two ends of [submitHeadlessCode] when a function is stored. *)
Lemma submit_returns getErrorMessage f code h st st' :
  initiateHeadlessCodeEntry h = Some f ->
  f code st = (Ok tt, st') ->
  submitHeadlessCode getErrorMessage code h st
  = (setIsAuthenticating false
       (setIsAuthDialogOpen false
          (setInitiateHeadlessCodeEntry None
             (setHeadlessAuthUrl None
                (console_write (ConsoleLog (str "Headless login successful."))
                   (setAuthError None (setIsAuthenticating true h)))))), st').
Proof. intros Hf Hrun. unfold submitHeadlessCode. by rewrite Hf, Hrun. Qed.

Lemma submit_throws getErrorMessage f code h st m st' :
  initiateHeadlessCodeEntry h = Some f ->
  f code st = (Throw m, st') ->
  let text := str "Headless login failed: " ++ getErrorMessage m
              ++ str ". Please check the code and try again." in
  submitHeadlessCode getErrorMessage code h st
  = (setIsAuthenticating false
       (console_write (ConsoleError text)
          (setAuthError (Some text) (setIsAuthenticating true h))), st').
Proof. intros Hf Hrun. unfold submitHeadlessCode. by rewrite Hf, Hrun. Qed.

(** X16. What the user sees after a code is submitted agrees with what
    the controller gets.  With the exchange function of a headless
    attempt stored and its promise pending, [submitHeadlessCode] ends
    with the spinner off, and either the login is complete, the error is
    cleared, the prompt and the dialog are closed and the cache file
    holds the credentials of the client; or the prompt stays as it was
    for another try, the error text carries the message, and the promise
    that [getOauthClient] awaits is already rejected with that
    message. *)
Theorem submitHeadlessCode_failure_keeps_prompt_and_rejects_login
    env getErrorMessage redirectUri code h st :
  initiateHeadlessCodeEntry h = Some (exchangeCodeFunction env redirectUri) ->
  loginComplete st = Pending ->
  exists h' st',
    submitHeadlessCode getErrorMessage code h st = (h', st')
    /\ isAuthenticating h' = false
    /\ ((Controller.awaitLoginComplete st' = Some (Ok tt)
         /\ authError h' = None
         /\ isAuthDialogOpen h' = false
         /\ headlessAuthUrl h' = None
         /\ initiateHeadlessCodeEntry h' = None
         /\ files st' !! getCachedCredentialPath env
            = Some (JSON.stringify (credentials st')))
        \/ (exists m,
              Controller.awaitLoginComplete st' = Some (Throw m)
              /\ authError h'
                 = Some (str "Headless login failed: " ++ getErrorMessage m
                         ++ str ". Please check the code and try again.")
              /\ isAuthDialogOpen h' = isAuthDialogOpen h
              /\ headlessAuthUrl h' = headlessAuthUrl h
              /\ initiateHeadlessCodeEntry h' = initiateHeadlessCodeEntry h)).
Proof.
  intros Hf Hl. unfold submitHeadlessCode. rewrite Hf.
  destruct (exchange_outcome env redirectUri code st) as (o & st' & Hrun & Ho).
  rewrite Hrun. unfold Controller.awaitLoginComplete.
  destruct o as [[]|m]; destruct Ho as [Hl' Ho]; rewrite Hl in Hl'.
  - eexists _, _. split; [reflexivity|]. split; [done|]. left.
    rewrite Hl'. by split_all.
  - eexists _, _. split; [reflexivity|]. split; [done|]. right. exists m.
    rewrite Hl'. by split_all.
Qed.

(** X17. A retry from the prompt that succeeds is reported as a
    success while the login has failed.  When a first code is rejected
    and a second one accepted, the second submission clears the error,
    logs "Headless login successful.", closes the prompt and leaves the
    new tokens in the cache file; the promise that [getOauthClient]
    awaits stays rejected with the error of the first code. *)
Theorem prompt_retry_reports_success_on_rejected_login
    env getErrorMessage redirectUri code1 code2 cause tokens h st :
  let P := getCachedCredentialPath env in
  let D := path_dirname env P in
  let st1 := (exchangeCodeFunction env redirectUri code1 st).2 in
  let exchanged := EvGetToken (trim code2) redirectUri (Ok tokens) in
  initiateHeadlessCodeEntry h = Some (exchangeCodeFunction env redirectUri) ->
  loginComplete st = Pending ->
  forallb is_whitespace code1 = false ->
  forallb is_whitespace code2 = false ->
  getToken env (trace st) (trim code1) redirectUri = Throw cause ->
  getToken env (trace st1) (trim code2) redirectUri = Ok tokens ->
  mkdir_error env (trace st1 ++ [exchanged]) D = None ->
  writeFile_error env (trace st1 ++ [exchanged; EvMkdir D (Ok tt)]) P
    (JSON.stringify tokens) = None ->
  let first_error := str "Error exchanging authorization code: " ++ cause in
  let first := submitHeadlessCode getErrorMessage code1 h st in
  let second := submitHeadlessCode getErrorMessage code2 first.1 first.2 in
  authError second.1 = None
  /\ isAuthDialogOpen second.1 = false
  /\ headlessAuthUrl second.1 = None
  /\ console second.1
     = console h
       ++ [ConsoleError
             (str "Headless login failed: " ++ getErrorMessage first_error
              ++ str ". Please check the code and try again.");
           ConsoleLog (str "Headless login successful.")]
  /\ files second.2 !! P = Some (JSON.stringify tokens)
  /\ Controller.awaitLoginComplete second.2 = Some (Throw first_error).
Proof.
  intros P D st1 exchanged Hf Hl Hb1 Hb2 Hg1 Hg2 Hm Hw first_error first second.
  destruct (exchange_retry_run env redirectUri code1 code2 cause tokens st
              Hl Hb1 Hb2 Hg1 Hg2 Hm Hw) as (st2 & Hrun1 & Hrun2 & _ & Hfile & Hl2).
  fold st1 in Hrun1, Hrun2.
  subst first second.
  rewrite (submit_throws getErrorMessage _ code1 h st first_error st1 Hf Hrun1).
  cbv zeta. cbn [fst snd].
  erewrite (submit_returns getErrorMessage _ code2 _ st1 st2); [|exact Hf|exact Hrun2].
  cbn [fst snd]. split_all; try done.
  - cbn [console setIsAuthenticating setIsAuthDialogOpen
         setInitiateHeadlessCodeEntry setHeadlessAuthUrl console_write
         setAuthError]. by rewrite <- app_assoc.
  - unfold Controller.awaitLoginComplete. by rewrite Hl2.
Qed.

(** X18. Through the prompt, the token endpoint only ever gets a code
    that is trimmed and not empty.  With [submitHeadlessCode] as the
    prompt's [onSubmitCode]: a blank input, or a submission while one is
    in progress, does nothing at all; otherwise the only exchange made is
    for the trimmed input with the redirect URI of the attempt, and the
    promise is not rejected for a missing code. *)
Theorem prompt_submits_only_trimmed_nonblank_code
    env getErrorMessage redirectUri inputValue busy h st :
  let onSubmitCode := fun code (s : AuthCommand * State) =>
    (Ok tt, submitHeadlessCode getErrorMessage code s.1 s.2) in
  let r := handleSubmit inputValue busy onSubmitCode (h, st) in
  initiateHeadlessCodeEntry h = Some (exchangeCodeFunction env redirectUri) ->
  r.1 = Ok tt
  /\ (forallb is_whitespace inputValue = true \/ busy = true -> r.2 = (h, st))
  /\ (forall c u o,
        EvGetToken c u o ∈ new_events st r.2.2 ->
        c = trim inputValue /\ c <> [] /\ u = redirectUri /\ busy = false)
  /\ (loginComplete st = Pending ->
      loginComplete r.2.2 <> Rejected (str "No authorization code provided.")).
Proof.
  intros onSubmitCode r Hf. subst r onSubmitCode. unfold handleSubmit.
  unfold str_eqb. destruct (bool_decide (trim inputValue = [])) eqn:Ht.
  { apply bool_decide_eq_true in Ht. cbn [negb andb fst snd].
    split_all; try done.
    - intros c u o. rewrite new_events_same by done. by intros ?%elem_of_nil.
    - intros ->. done. }
  apply bool_decide_eq_false in Ht.
  assert (Hnb : forallb is_whitespace inputValue = false).
  { destruct (forallb is_whitespace inputValue) eqn:E; [|done].
    exfalso. by apply Ht, trim_blank. }
  destruct busy; cbn [negb andb fst snd].
  { split_all; try done.
    - intros c u o. rewrite new_events_same by done. by intros ?%elem_of_nil.
    - intros ->. done. }
  pose proof (trim_not_blank inputValue Ht) as Hnb'.
  assert (Hst : (submitHeadlessCode getErrorMessage (trim inputValue) h st).2
                = (exchangeCodeFunction env redirectUri (trim inputValue) st).2).
  { unfold submitHeadlessCode. rewrite Hf.
    by destruct (exchangeCodeFunction env redirectUri (trim inputValue) st)
      as [[[]|m] st']. }
  rewrite Hst. split_all; try done.
  - intros [H|H]; congruence.
  - intros c u o Hin. apply exchange_events in Hin as (-> & -> & _).
    rewrite trim_idem. done.
  - intros Hl.
    pose proof (exchange_not_blank_message env redirectUri (trim inputValue) st Hnb')
      as Hmsg.
    destruct (exchange_outcome env redirectUri (trim inputValue) st)
      as (o & st' & Hrun & Ho).
    rewrite Hrun in Hmsg |- *. cbn [fst snd] in *.
    destruct o as [[]|m]; destruct Ho as [Hl' _]; rewrite Hl in Hl';
      rewrite Hl'; simpl.
    { done. }
    destruct Hmsg as [cause ->]. by intros [= E].
Qed.

(** X19. Choosing an auth method always forces a new login.  With a
    method that is not empty, [handleAuthSelect] removes the cache file,
    records the method in the settings, and closes the dialog with the
    error and the headless state cleared; when the cache is read from
    its fixed path and the removal worked, the next [getOauthClient]
    cannot return from the cache, whatever credentials were cached
    before. *)
Theorem auth_select_forces_new_login
    env method scope h st open_error sh :
  let r := handleAuthSelect env (Some method) scope h st in
  method <> [] ->
  keyFile env = getCachedCredentialPath env ->
  rm_error env (trace st) (getCachedCredentialPath env) = None ->
  files r.2 !! getCachedCredentialPath env = None
  /\ settingsWrites r.1
     = settingsWrites h ++ [(scope, str "selectedAuthType", method)]
  /\ isAuthDialogOpen r.1 = false
  /\ authError r.1 = None
  /\ headlessAuthUrl r.1 = None
  /\ initiateHeadlessCodeEntry r.1 = None
  /\ (Controller.getOauthClient env open_error sh r.2).1.1
     <> Ok Controller.Returned.
Proof.
  intros r Hne Hkey Hrm. subst r. unfold handleAuthSelect.
  destruct method as [|c method]; [done|]. cbn [truthy_opt truthy default fst snd].
  destruct (clear_run env st) as (st1 & Hclear & _ & Hgone & _).
  destruct (load_after_clear env st Hkey Hrm) as (st2 & e & Hload & _).
  rewrite Hclear in Hload |- *. cbn [snd] in *.
  split_all; try done.
  - by apply Hgone.
  - destruct (getOauthClient_miss env open_error sh st1)
      as (st1' & login & st2' & _ & _ & _ & _ & ->).
    { by rewrite Hload. }
    destruct (headlessStep login); [done|].
    cbv zeta. by destruct (open_error _).
Qed.

(** X21. After a cancel, a code that is still submitted reaches
    nothing: the exchange function is gone, so [submitHeadlessCode]
    leaves the client, the cache and the promise alone, shows
    "Headless code submission error: No submission function available."
    and is back on the auth dialog with the spinner off. *)
Theorem submit_after_cancel_exchanges_nothing getErrorMessage code h st :
  let r := submitHeadlessCode getErrorMessage code (cancelAuthentication h) st in
  r.2 = st
  /\ isAuthDialogOpen r.1 = true
  /\ isAuthenticating r.1 = false
  /\ headlessAuthUrl r.1 = None
  /\ initiateHeadlessCodeEntry r.1 = None
  /\ authError r.1
     = Some (str "Headless code submission error: No submission function available.")
  /\ settingsWrites r.1 = settingsWrites h.
Proof.
  intros r. subst r. unfold cancelAuthentication, submitHeadlessCode.
  by destruct (isAuthDialogOpen h).
Qed.

End auth_command.

Section legacy.

Import Js OAuth2 Spec.

(** X20. The earlier headless callback never throws: every failure goes
    to the promise only.  An empty answer rejects it without any call;
    any other answer, also one of blanks only, is trimmed and sent to the
    token endpoint, so that blanks reach it as the empty code. *)
Theorem legacy_callback_reports_through_promise_only env redirectUri code st :
  exists st',
    Legacy.questionCallback env redirectUri code st = (Ok tt, st')
    /\ (exists s, loginComplete st' = settle s (loginComplete st))
    /\ (code = [] ->
        new_events st st' = []
        /\ loginComplete st'
           = settle (Rejected (str "No authorization code provided."))
               (loginComplete st))
    /\ (code <> [] ->
        exists more,
          new_events st st'
          = EvGetToken (trim code) redirectUri
              (getToken env (trace st) (trim code) redirectUri) :: more)
    /\ (code <> [] -> forallb is_whitespace code = true ->
        exists r more, new_events st st' = EvGetToken [] redirectUri r :: more).
Proof.
  unfold Legacy.questionCallback.
  destruct code as [|c code].
  { cbn [truthy negb]. eexists. split; [reflexivity|]. simpl.
    split; [by eexists|]. split; [|done]. intros _. split; [|done].
    by apply new_events_same. }
  cbn [truthy negb].
  assert (Hmain : exists st',
    try_catch
      (tokens ← client_getToken env (trim (c :: code)) redirectUri;
       setCredentials tokens;;
       creds ← client_credentials;
       cacheCredentials env creds;;
       resolve)
      (fun e => reject (str "Error exchanging authorization code: " ++ e)) st
    = (Ok tt, st')
    /\ (exists s, loginComplete st' = settle s (loginComplete st))
    /\ exists more,
         new_events st st'
         = EvGetToken (trim (c :: code)) redirectUri
             (getToken env (trace st) (trim (c :: code)) redirectUri) :: more).
  { open_state st. unfold try_catch, mbind, M_bind, client_getToken. simpl.
    destruct (getToken env tr (trim (c :: code)) redirectUri) as [tokens|e]; simpl.
    - rewrite cacheCredentials_run. simpl.
      destruct (mkdir_error env _ _) as [e1|]; simpl.
      + eexists. split; [reflexivity|]. simpl. split; [by eexists|].
        eexists. apply new_events_app. simpl. by rewrite <- app_assoc.
      + destruct (writeFile_error env _ _ _) as [e2|]; simpl.
        * eexists. split; [reflexivity|]. simpl. split; [by eexists|].
          eexists. apply new_events_app. simpl. by rewrite <- !app_assoc.
        * eexists. split; [reflexivity|]. simpl. split; [by eexists|].
          eexists. apply new_events_app. simpl. by rewrite <- !app_assoc.
    - eexists. split; [reflexivity|]. simpl. split; [by eexists|].
      eexists. by apply new_events_app. }
  destruct Hmain as (st' & Hrun & Hs & more & Hev).
  exists st'. split; [done|]. split; [done|]. split; [done|].
  split; [by exists more|].
  intros _ Hb. exists (getToken env (trace st) [] redirectUri), more.
  rewrite Hev. by rewrite (trim_blank _ Hb).
Qed.

End legacy.

(* ===================================================================== *)
(** ** Further scenarios *)
(* ===================================================================== *)

Section further_scenarios.

Import Js OAuth2 Spec.

(** A request for the icon of the page ends the attempt. *)
Lemma listener_always_answers_and_closes_witness :
  exists st',
    requestListener Sample.interactive Sample.nonce Sample.LOOPBACK 8081
      (Some (str "/favicon.ico")) Sample.attempt = (Ok tt, st')
    /\ server st' = closed_server <$> server Sample.attempt
    /\ resEnded (res st') = true
    /\ loginComplete st' <> Pending.
Proof.
  destruct (listener_always_answers_and_closes Sample.interactive Sample.nonce
              Sample.LOOPBACK 8081 (Some (str "/favicon.ico")) Sample.attempt)
    as (st' & Hrun & Hs & He & _ & Hl & _).
  - reflexivity.
  - exists st'. split; [exact Hrun|]. split; [exact Hs|]. split; [exact He|exact Hl].
Defined.

(** The callback that the provider sends after consent. *)
Lemma callback_with_nonce_and_code_logs_in_witness :
  exists st',
    requestListener Sample.interactive Sample.nonce Sample.LOOPBACK 8081
      (Some (str "/oauth2callback?code=ABC&state=" ++ Sample.nonce)) Sample.attempt
      = (Ok tt, st')
    /\ credentials st' = Sample.tokens_of "ya29.first"
    /\ files st'
       = <[ Sample.CACHE_FILE := JSON.stringify (Sample.tokens_of "ya29.first") ]>
           (files Sample.attempt)
    /\ loginComplete st' = settle Resolved (loginComplete Sample.attempt).
Proof.
  destruct (callback_with_nonce_and_code_logs_in Sample.interactive Sample.nonce
              Sample.LOOPBACK 8081
              (str "/oauth2callback?code=ABC&state=" ++ Sample.nonce)
              [(str "code", str "ABC"); (str "state", Sample.nonce)]
              (str "ABC") (Sample.tokens_of "ya29.first") Sample.attempt)
    as (st' & Hrun & Hc & Hf & _ & Hl & _).
  - reflexivity.
  - vm_compute. reflexivity.
  - vm_compute. reflexivity.
  - vm_compute. reflexivity.
  - vm_compute. reflexivity.
  - vm_compute. reflexivity.
  - vm_compute. discriminate.
  - vm_compute. reflexivity.
  - reflexivity.
  - reflexivity.
  - exists st'. split; [exact Hrun|]. split; [exact Hc|].
    split; [exact Hf|exact Hl].
Defined.

(** The same callback when the home directory cannot be written. *)
Lemma callback_cache_failure_keeps_tokens_on_client_witness :
  exists st',
    requestListener Sample.read_only_home Sample.nonce Sample.LOOPBACK 8081
      (Some (str "/oauth2callback?code=ABC&state=" ++ Sample.nonce)) Sample.attempt
      = (Ok tt, st')
    /\ credentials st' = Sample.tokens_of "ya29.first"
    /\ loginComplete st'
       = settle (Rejected (str "EACCES: permission denied"))
           (loginComplete Sample.attempt).
Proof.
  destruct (callback_cache_failure_keeps_tokens_on_client Sample.read_only_home
              Sample.nonce Sample.LOOPBACK 8081
              (str "/oauth2callback?code=ABC&state=" ++ Sample.nonce)
              [(str "code", str "ABC"); (str "state", Sample.nonce)]
              (str "ABC") (Sample.tokens_of "ya29.first")
              (str "EACCES: permission denied") Sample.attempt)
    as (st' & Hrun & Hc & Hl & _).
  - reflexivity.
  - vm_compute. reflexivity.
  - vm_compute. reflexivity.
  - vm_compute. reflexivity.
  - vm_compute. reflexivity.
  - vm_compute. reflexivity.
  - vm_compute. discriminate.
  - vm_compute. reflexivity.
  - right. split; reflexivity.
  - exists st'. split; [exact Hrun|]. split; [exact Hc|exact Hl].
Defined.

(** A pasted code with blanks around it. *)
Lemma exchangeCode_trims_and_logs_in_witness :
  exists st',
    exchangeCodeFunction Sample.headless OOB_REDIRECT_URI (str "  ABC ")
      Sample.headless_attempt = (Ok tt, st')
    /\ credentials st' = Sample.tokens_of "ya29.first"
    /\ new_events Sample.headless_attempt st'
       = [EvGetToken (str "ABC") OOB_REDIRECT_URI (Ok (Sample.tokens_of "ya29.first"));
          EvMkdir (str "/home/user/.gemini") (Ok tt);
          EvWriteFile Sample.CACHE_FILE
            (JSON.stringify (Sample.tokens_of "ya29.first")) (Ok tt)].
Proof.
  destruct (exchangeCode_trims_and_logs_in Sample.headless OOB_REDIRECT_URI
              (str "  ABC ") (Sample.tokens_of "ya29.first") Sample.headless_attempt)
    as (st' & Hrun & Hc & _ & _ & Hev).
  - vm_compute. reflexivity.
  - vm_compute. reflexivity.
  - reflexivity.
  - reflexivity.
  - exists st'. split; [exact Hrun|]. split; [exact Hc|exact Hev].
Defined.

(** A mistyped code, then the right one. *)
Lemma exchangeCode_retry_leaves_promise_rejected_witness :
  let st1 := (exchangeCodeFunction Sample.headless OOB_REDIRECT_URI (str "XYZ")
                Sample.headless_attempt).2 in
  exists st2,
    exchangeCodeFunction Sample.headless OOB_REDIRECT_URI (str "ABC") st1
      = (Ok tt, st2)
    /\ files st2 !! Sample.CACHE_FILE
       = Some (JSON.stringify (Sample.tokens_of "ya29.first"))
    /\ Controller.awaitLoginComplete st2
       = Some (Throw (str "Error exchanging authorization code: "
                      ++ str "invalid_grant")).
Proof.
  intros st1.
  destruct (exchangeCode_retry_leaves_promise_rejected Sample.headless
              OOB_REDIRECT_URI (str "XYZ") (str "ABC") (str "invalid_grant")
              (Sample.tokens_of "ya29.first") Sample.headless_attempt)
    as (st2 & Hrun & _ & Hf & _ & Ha).
  - reflexivity.
  - vm_compute. reflexivity.
  - vm_compute. reflexivity.
  - vm_compute. reflexivity.
  - vm_compute. reflexivity.
  - reflexivity.
  - reflexivity.
  - exists st2. split; [exact Hrun|]. split; [exact Hf|exact Ha].
Defined.

(** Clearing the cache of a signed-in user, then loading it. *)
Lemma load_after_clear_misses_witness :
  exists st2 e,
    loadCachedCredentials Sample.headless
      (clearCachedCredentialFile Sample.headless Sample.signed_in).2
      = (Ok false, st2)
    /\ new_events (clearCachedCredentialFile Sample.headless Sample.signed_in).2 st2
       = [EvReadFile Sample.CACHE_FILE (Throw e)].
Proof.
  destruct (load_after_clear_misses Sample.headless Sample.signed_in)
    as (st2 & e & Hrun & Hev & _).
  - vm_compute. reflexivity.
  - reflexivity.
  - exists st2, e. split; [exact Hrun|exact Hev].
Defined.

(** Two saves in a row. *)
Lemma second_save_overwrites_first_witness :
  let first := Sample.tokens_of "ya29.first" in
  let second := Sample.tokens_of "ya29.second" in
  let st1 := (cacheCredentials Sample.interactive first Sample.init).2 in
  let st2 := (cacheCredentials Sample.interactive second st1).2 in
  files st2 = <[ Sample.CACHE_FILE := JSON.stringify second ]> (files Sample.init).
Proof.
  intros first second st1 st2.
  destruct (second_save_overwrites_first Sample.interactive first second
              Sample.init st1 st2) as (Hf & _).
  - vm_compute. reflexivity.
  - vm_compute. reflexivity.
  - exact Hf.
Defined.

(** A first start in headless mode. *)
Lemma getOauthClient_headless_miss_witness :
  exists step sh' st',
    Controller.getOauthClient Sample.headless (fun _ => None) Sample.shell Sample.init
      = (Ok Controller.AwaitingLogin, sh', st')
    /\ Controller.currentHeadlessAuthStep sh' = Some step
    /\ Controller.opened sh' = []
    /\ server st' = None
    /\ Controller.awaitLoginComplete st' = None.
Proof.
  destruct (getOauthClient_headless_miss Sample.headless (fun _ => None)
              Sample.shell Sample.init)
    as (step & nonce & sh1 & st1 & Hrun & Hstep & _ & _ & _ & Ho & _ & Hs & _ & Ha).
  - vm_compute. reflexivity.
  - vm_compute. reflexivity.
  - exists step, sh1, st1. split; [exact Hrun|].
    split; [exact Hstep|]. split; [exact Ho|]. split; [exact Hs|exact Ha].
Defined.

(** A first start on a desktop where the browser cannot be started. *)
Lemma getOauthClient_interactive_miss_witness :
  exists listener sh' st',
    Controller.getOauthClient Sample.interactive
      (fun _ => Some (str "spawn xdg-open ENOENT")) Sample.shell Sample.init
      = (Throw (str "spawn xdg-open ENOENT"), sh', st')
    /\ server st' = Some listener
    /\ srv_closed listener = false
    /\ Controller.awaitLoginComplete st' = None.
Proof.
  destruct (getOauthClient_interactive_miss Sample.interactive
              (fun _ => Some (str "spawn xdg-open ENOENT")) Sample.shell Sample.init)
    as (listener & url & o & sh' & st' & Hrun & Hs & _ & Hc & _ & _ & _ & Ho & _ & _ & Ha).
  - vm_compute. reflexivity.
  - vm_compute. reflexivity.
  - exists listener, sh', st'. rewrite Ho in Hrun.
    split; [exact Hrun|]. split; [exact Hs|]. split; [exact Hc|exact Ha].
Defined.

(** A mistyped code in the prompt. *)
Lemma submitHeadlessCode_failure_keeps_prompt_and_rejects_login_witness :
  exists h' st',
    Ui.submitHeadlessCode (fun m => m) (str "XYZ") Sample.prompt
      Sample.headless_attempt = (h', st')
    /\ Ui.isAuthenticating h' = false.
Proof.
  destruct (submitHeadlessCode_failure_keeps_prompt_and_rejects_login
              Sample.headless (fun m => m) OOB_REDIRECT_URI (str "XYZ")
              Sample.prompt Sample.headless_attempt)
    as (h' & st' & Hrun & Hb & _).
  - reflexivity.
  - reflexivity.
  - exists h', st'. split; [exact Hrun|exact Hb].
Defined.

(** A mistyped code in the prompt, then the right one. *)
Lemma prompt_retry_reports_success_on_rejected_login_witness :
  let first := Ui.submitHeadlessCode (fun m => m) (str "XYZ") Sample.prompt
                 Sample.headless_attempt in
  let second := Ui.submitHeadlessCode (fun m => m) (str "ABC") first.1 first.2 in
  Ui.authError second.1 = None
  /\ Ui.isAuthDialogOpen second.1 = false
  /\ files second.2 !! Sample.CACHE_FILE
     = Some (JSON.stringify (Sample.tokens_of "ya29.first"))
  /\ Controller.awaitLoginComplete second.2
     = Some (Throw (str "Error exchanging authorization code: "
                    ++ str "invalid_grant")).
Proof.
  intros first second.
  destruct (prompt_retry_reports_success_on_rejected_login Sample.headless
              (fun m => m) OOB_REDIRECT_URI (str "XYZ") (str "ABC")
              (str "invalid_grant") (Sample.tokens_of "ya29.first")
              Sample.prompt Sample.headless_attempt)
    as (He & Hd & _ & _ & Hf & Ha).
  - reflexivity.
  - reflexivity.
  - vm_compute. reflexivity.
  - vm_compute. reflexivity.
  - vm_compute. reflexivity.
  - vm_compute. reflexivity.
  - reflexivity.
  - reflexivity.
  - split; [exact He|]. split; [exact Hd|]. split; [exact Hf|exact Ha].
Defined.

(** A code pasted into the prompt with blanks around it. *)
Lemma prompt_submits_only_trimmed_nonblank_code_witness :
  let onSubmitCode := fun code (s : Ui.AuthCommand * State) =>
    (Ok tt, Ui.submitHeadlessCode (fun m => m) code s.1 s.2) in
  let r := Ui.handleSubmit (str " ABC ") false onSubmitCode
             (Sample.prompt, Sample.headless_attempt) in
  r.1 = Ok tt
  /\ (forall c u o,
        EvGetToken c u o ∈ new_events Sample.headless_attempt r.2.2 ->
        c = trim (str " ABC ") /\ c <> [] /\ u = OOB_REDIRECT_URI).
Proof.
  intros onSubmitCode r.
  destruct (prompt_submits_only_trimmed_nonblank_code Sample.headless
              (fun m => m) OOB_REDIRECT_URI (str " ABC ") false
              Sample.prompt Sample.headless_attempt)
    as (Hr & _ & Hev & _).
  - reflexivity.
  - split; [exact Hr|].
    intros c u o Hin. destruct (Hev c u o Hin) as (Hc & Hne & Hu & _).
    split; [exact Hc|]. split; [exact Hne|exact Hu].
Defined.

(** A signed-in user chooses the same method again. *)
Lemma auth_select_forces_new_login_witness :
  let r := Ui.handleAuthSelect Sample.headless (Some (str "oauth-personal"))
             (str "User") Sample.prompt Sample.signed_in in
  files Sample.signed_in !! Sample.CACHE_FILE <> None
  /\ files r.2 !! Sample.CACHE_FILE = None
  /\ (Controller.getOauthClient Sample.headless (fun _ => None) Sample.shell r.2).1.1
     <> Ok Controller.Returned.
Proof.
  intros r.
  destruct (auth_select_forces_new_login Sample.headless (str "oauth-personal")
              (str "User") Sample.prompt Sample.signed_in (fun _ => None)
              Sample.shell) as (Hf & _ & _ & _ & _ & _ & Hg).
  - vm_compute. discriminate.
  - vm_compute. reflexivity.
  - reflexivity.
  - split; [vm_compute; discriminate|]. split; [exact Hf|exact Hg].
Defined.

End further_scenarios.
